(** * The Verilator linter of the Verilog-HDL extension

    A shallow embedding of [src/linter/VerilatorLinter.ts]: the command
    builder of [lint], the completion callback that turns the captured
    stderr text into diagnostics, and [getSeverity].

    The file is organised as the source is layered:
    - [JS]: the fragment of JavaScript's strings and numbers the source
      uses, and the exceptions its calls can throw;
    - [RegExp]: a backtracking matcher for the operators of the source's
      regular expression, with capture groups;
    - [Host]: what the source reads from Node and from the editor
      (platform, [path], [child_process], the workspace root, the resource
      of a file);
    - [Vscode]: ranges, diagnostics and the diagnostic collection;
    - [VerilatorLinter]: the class itself.

    The statements come after: what the pattern's match arrays look like,
    what one line of output does to the callback's state, and what the
    callback and the command builder do as a whole. *)

From Stdlib Require Import Ascii String List ZArith NArith Bool Lia.
Import ListNotations.

Set Implicit Arguments.
Local Open Scope Z_scope.

(* ===================================================================== *)
(** * JavaScript strings and numbers *)
(* ===================================================================== *)

Module JS.

(** A string is its sequence of code units.  Code units are bytes here:
    the model covers the texts whose code units are below 256. *)
Definition str := list ascii.

(** A string literal of the source. *)
Definition lit (s : string) : str := list_ascii_of_string s.

(** [s.charCodeAt(i)] of a character. *)
Definition charCode (c : ascii) : N := N_of_ascii c.

Definition LF : ascii := ascii_of_N 10.
Definition CR : ascii := ascii_of_N 13.

Fixpoint str_eqb (a b : str) : bool :=
  match a, b with
  | [], [] => true
  | x :: a', y :: b' => Ascii.eqb x y && str_eqb a' b'
  | _, _ => false
  end.

(** [s.startsWith(p)] *)
Fixpoint startsWith (s p : str) {struct p} : bool :=
  match p, s with
  | [], _ => true
  | x :: p', y :: s' => Ascii.eqb y x && startsWith s' p'
  | _ :: _, [] => false
  end.

(** [s.lastIndexOf(c)] for a one-character search string: the index of the
    last occurrence, or -1. *)
Fixpoint lastIndexOf_from (i : Z) (last : Z) (s : str) (c : ascii) : Z :=
  match s with
  | [] => last
  | x :: s' => lastIndexOf_from (i + 1) (if Ascii.eqb x c then i else last) s' c
  end.

Definition lastIndexOf (s : str) (c : ascii) : Z := lastIndexOf_from 0 (-1) s c.

(** [s.substr(start, len)]: a negative [start] counts from the end, and the
    length is clamped to what is left of the string. *)
Definition substr (s : str) (start len : Z) : str :=
  let size := Z.of_nat (length s) in
  let from := if start <? 0 then Z.max (size + start) 0 else Z.min start size in
  let n := Z.min (Z.max len 0) (size - from) in
  firstn (Z.to_nat n) (skipn (Z.to_nat from) s).

(** [s.slice(1)] *)
Definition slice1 (s : str) : str := skipn 1 s.

(** [a.join(sep)] on an array of strings. *)
Fixpoint join (sep : str) (a : list str) : str :=
  match a with
  | [] => []
  | [x] => x
  | x :: rest => x ++ sep ++ join sep rest
  end.

(** [a.indexOf(x)] on an array of strings. *)
Fixpoint indexOf_from (i : Z) (a : list str) (x : str) : Z :=
  match a with
  | [] => -1
  | y :: a' => if str_eqb y x then i else indexOf_from (i + 1) a' x
  end.

Definition indexOf (a : list str) (x : str) : Z := indexOf_from 0 a x.

(** [s.split(/\r?\n/g)]: the separator is a line feed together with the
    carriage return right before it, when there is one.  The scan goes left
    to right, so a carriage return is tried before the line feed after it. *)
Fixpoint split_lines_acc (cur : str) (s : str) : list str :=
  match s with
  | [] => [cur]
  | c :: s' =>
      if Ascii.eqb c LF then cur :: split_lines_acc [] s'
      else
        match s' with
        | d :: s'' =>
            if Ascii.eqb c CR && Ascii.eqb d LF
            then cur :: split_lines_acc [] s''
            else split_lines_acc (cur ++ [c]) s'
        | [] => split_lines_acc (cur ++ [c]) s'
        end
  end.

Definition split_lines (s : str) : list str := split_lines_acc [] s.

(** [s.replace(/\r?\n/g, '')] *)
Definition strip_newlines (s : str) : str := concat (split_lines s).

(** [s.replace(/\\/g, '/')] *)
Definition backslash_to_slash (s : str) : str :=
  map (fun c => if Ascii.eqb c "\"%char then "/"%char else c) s.

(** ** Numbers

    Every number the source computes is an integer-valued double, an
    infinity or NaN.  [Fin z] is the double whose value is the integer [z]. *)
Inductive number : Type :=
| NaN
| PosInfinity
| NegInfinity
| Fin (z : Z).

(** The double nearest to the integer [v], ties to even: exact up to
    [2^53]; above, the value keeps its 53 leading bits, and overflows to an
    infinity from [2^1024] on. *)
Definition to_double (v : Z) : number :=
  if Z.abs v <=? 2 ^ 53 then Fin v
  else
    let a := Z.abs v in
    let e := Z.log2 a - 52 in
    let q := a / 2 ^ e in
    let r := a mod 2 ^ e in
    let h := 2 ^ (e - 1) in
    let q' := if (h <? r) || ((r =? h) && Z.odd q) then q + 1 else q in
    let m := q' * 2 ^ e in
    if 2 ^ 1024 <=? m then (if v <? 0 then NegInfinity else PosInfinity)
    else Fin (Z.sgn v * m).

(** [Number.MAX_VALUE] *)
Definition MAX_VALUE : number := Fin ((2 ^ 53 - 1) * 2 ^ 971).

(** [a - b] *)
Definition sub (a b : number) : number :=
  match a, b with
  | NaN, _ | _, NaN => NaN
  | PosInfinity, PosInfinity => NaN
  | NegInfinity, NegInfinity => NaN
  | PosInfinity, _ => PosInfinity
  | NegInfinity, _ => NegInfinity
  | Fin _, PosInfinity => NegInfinity
  | Fin _, NegInfinity => PosInfinity
  | Fin x, Fin y => to_double (x - y)
  end.

Definition isNaN (a : number) : bool :=
  match a with NaN => true | _ => false end.

(** [a < b] *)
Definition lt (a b : number) : bool :=
  match a, b with
  | NaN, _ | _, NaN => false
  | PosInfinity, _ => false
  | _, NegInfinity => false
  | NegInfinity, _ => true
  | Fin _, PosInfinity => true
  | Fin x, Fin y => x <? y
  end.

Definition is_digit (c : ascii) : bool :=
  (48 <=? charCode c)%N && (charCode c <=? 57)%N.

Definition digit_value (c : ascii) : Z := Z.of_N (charCode c) - 48.

(** The value of a string of decimal digits. *)
Definition decimal (s : str) : Z :=
  fold_left (fun acc c => 10 * acc + digit_value c) s 0.

(** [Number(v)] on the two shapes of value the source passes to it:
    [undefined] (a capture group that took no part in the match), which is
    NaN, and a string of decimal digits, which is the double nearest to its
    value.  Groups 4 and 5 of the pattern are [\d+], so no other string
    reaches the call; the rest of the numeric-literal grammar (white space,
    signs, fractions, exponents, other bases) is not modelled, and what this
    definition answers on such a string is not a statement about the
    program: every theorem below applies it to [undefined] or to digits. *)
Definition Number (v : option str) : number :=
  match v with
  | None => NaN
  | Some s => if forallb is_digit s then to_double (decimal s) else NaN
  end.

(** White space as [trim] and [\s] see it: below 256, the characters from
    tab to carriage return, the space and the no-break space. *)
Definition is_space (c : ascii) : bool :=
  ((9 <=? charCode c)%N && (charCode c <=? 13)%N)
  || (charCode c =? 32)%N || (charCode c =? 160)%N.

(** [s.trimStart()], [s.trimEnd()] and [s.trim()] *)
Fixpoint trimStart (s : str) : str :=
  match s with
  | c :: s' => if is_space c then trimStart s' else s
  | [] => []
  end.

Definition trimEnd (s : str) : str := rev (trimStart (rev s)).

Definition trim (s : str) : str := trimEnd (trimStart s).

(** [s.split(sep)] for a one-character separator: the pieces between its
    occurrences, the empty ones too. *)
Fixpoint split_acc (sep : ascii) (cur : str) (s : str) : list str :=
  match s with
  | [] => [cur]
  | c :: s' =>
      if Ascii.eqb c sep then cur :: split_acc sep [] s'
      else split_acc sep (cur ++ [c]) s'
  end.

Definition split (s : str) (sep : ascii) : list str := split_acc sep [] s.

(** ** Exceptions

    What the calls of the callback can throw: the two errors of the
    editor's [Range] constructor, and the [TypeError] of [path.join] on an
    argument that is not a string. *)
Inductive Exception : Type :=
| line_must_be_non_negative
| character_must_be_non_negative
| path_must_be_a_string.

(** A call that returns a value or throws. *)
Inductive result (A : Type) : Type :=
| Ok (value : A)
| Throw (e : Exception).

Arguments Throw {A} e.

End JS.

Import JS.

(* ===================================================================== *)
(** * Regular expressions *)
(* ===================================================================== *)

(** The operators the source's regular expression is written with, and
    their matching as JavaScript defines it: leftmost start, greedy
    quantifiers, alternatives tried in order by backtracking. *)
Module RegExp.

(** One-character atoms. *)
Inductive atom : Type :=
| Any                                   (* .  *)
| Word                                  (* \w *)
| Digit                                 (* \d *)
| Space                                 (* \s *)
| OneOf (ranges : list (ascii * ascii)) (* [a-bc-d...] *).

Definition in_range (c : ascii) (r : ascii * ascii) : bool :=
  (charCode (fst r) <=? charCode c)%N && (charCode c <=? charCode (snd r))%N.

(** [\s] is the white space and the line terminators; below 256 these are
    tab, line feed, vertical tab, form feed, carriage return, space and the
    no-break space.  [.] is every character but a line terminator. *)
Definition test (a : atom) (c : ascii) : bool :=
  match a with
  | Any => negb (Ascii.eqb c LF || Ascii.eqb c CR)
  | Word =>
      in_range c ("a", "z")%char || in_range c ("A", "Z")%char
      || in_range c ("0", "9")%char || Ascii.eqb c "_"%char
  | Digit => in_range c ("0", "9")%char
  | Space =>
      ((9 <=? charCode c)%N && (charCode c <=? 13)%N)
      || (charCode c =? 32)%N || (charCode c =? 160)%N
  | OneOf ranges => existsb (in_range c) ranges
  end.

Inductive regex : Type :=
| Char (c : ascii)              (* a literal character *)
| Star (a : atom)               (* a*    *)
| Plus (a : atom)               (* a+    *)
| Opt (r : regex)               (* (?:r)? *)
| Seq (r1 r2 : regex)           (* r1r2  *)
| Group (n : nat) (r : regex)   (* (r), the n-th capture group *).

(** The capture groups: [None] is [undefined]. *)
Definition captures := nat -> option str.

Definition no_captures : captures := fun _ => None.

Definition capture (n : nat) (v : str) (c : captures) : captures :=
  fun i => if Nat.eqb i n then Some v else c i.

(** What was read between the input [s] and the rest [s']. *)
Definition consumed (s s' : str) : str :=
  firstn (length s - length s') s.

Section Matcher.

Variable answer : Type.

(** Greedy repetition of a one-character test: take the character and go
    on; when the rest of the pattern fails further down, give it back. *)
Fixpoint rep (p : ascii -> bool) (s : str) (k : str -> option answer)
  : option answer :=
  match s with
  | x :: s' =>
      if p x
      then match rep p s' k with
           | Some a => Some a
           | None => k s
           end
      else k s
  | [] => k s
  end.

(** [matcher r s c k]: match [r] at the front of [s] under the captures
    [c], then the rest of the pattern, [k], on what is left. *)
Fixpoint matcher (r : regex) (s : str) (c : captures)
         (k : str -> captures -> option answer) : option answer :=
  match r with
  | Char a =>
      match s with
      | x :: s' => if Ascii.eqb x a then k s' c else None
      | [] => None
      end
  | Star a => rep (test a) s (fun s' => k s' c)
  | Plus a =>
      match s with
      | x :: s' => if test a x then rep (test a) s' (fun s' => k s' c) else None
      | [] => None
      end
  | Opt r1 =>
      match matcher r1 s c k with
      | Some a => Some a
      | None => k s c
      end
  | Seq r1 r2 => matcher r1 s c (fun s1 c1 => matcher r2 s1 c1 k)
  | Group n r1 =>
      matcher r1 s c (fun s' c' => k s' (capture n (consumed s s') c'))
  end.

End Matcher.

(** The number of the last capture group. *)
Fixpoint groups (r : regex) : nat :=
  match r with
  | Char _ | Star _ | Plus _ => 0
  | Opt r1 => groups r1
  | Seq r1 r2 => Nat.max (groups r1) (groups r2)
  | Group n r1 => Nat.max n (groups r1)
  end.

(** The result of a successful match: where it starts, and the array
    [matched, group 1, ..., group n]. *)
Record MatchResult : Type := {
  index : Z;
  array : list (option str)
}.

(** [rex[i]] *)
Definition get (rex : list (option str)) (i : nat) : option str :=
  nth i rex None.

(** A match at the front of [s]. *)
Definition match_here (r : regex) (s : str) : option (list (option str)) :=
  match matcher r s no_captures (fun s' c => Some (s', c)) with
  | Some (s', c) => Some (Some (consumed s s') :: map c (seq 1 (groups r)))
  | None => None
  end.

(** The first start position, from [i] on, where the pattern matches. *)
Fixpoint exec_from (r : regex) (i : Z) (s : str) : option MatchResult :=
  match match_here r s with
  | Some a => Some {| index := i; array := a |}
  | None =>
      match s with
      | [] => None
      | _ :: s' => exec_from r (i + 1) s'
      end
  end.

Definition exec (r : regex) (s : str) : option MatchResult := exec_from r 0 s.

(** [s.search(r)] *)
Definition search (s : str) (r : regex) : Z :=
  match exec r s with
  | Some m => index m
  | None => -1
  end.

(** [s.match(r)] for a pattern without the [g] flag: the match array, or
    [null]. *)
Definition match_ (s : str) (r : regex) : option (list (option str)) :=
  option_map array (exec r s).

(** The matcher's specification: what a match of [r] reads off the front of [s], leaving [s'], and
    what it does to the captures. *)
Fixpoint reads (r : regex) (s s' : str) (c c' : captures) : Prop :=
  match r with
  | Char a => s = a :: s' /\ c' = c
  | Star a =>
      (exists pre, s = pre ++ s' /\ Forall (fun x => test a x = true) pre)
      /\ c' = c
  | Plus a =>
      (exists pre, s = pre ++ s' /\ pre <> []
                   /\ Forall (fun x => test a x = true) pre)
      /\ c' = c
  | Opt r1 => reads r1 s s' c c' \/ (s' = s /\ c' = c)
  | Seq r1 r2 => exists s1 c1, reads r1 s s1 c c1 /\ reads r2 s1 s' c1 c'
  | Group n r1 =>
      exists c1, reads r1 s s' c c1 /\ c' = capture n (consumed s s') c1
  end.

End RegExp.

Module RegExpNotations.
Infix ";;" := RegExp.Seq (at level 61, right associativity).
End RegExpNotations.
Import RegExpNotations.

(* ===================================================================== *)
(** * The host: Node and the editor *)
(* ===================================================================== *)

(** What the linter reads from its environment.  Node's [path] module
    follows the platform, [child_process.execSync] runs a helper process,
    and the editor knows the workspace and how it names resources; all are
    taken as the host provides them. *)
Class Host : Type := {
  (** [process.platform === 'win32'] *)
  isWindows : bool;
  (** [path.join(a, b)] *)
  path_join : str -> str -> str;
  (** [path.isAbsolute(p)] *)
  path_isAbsolute : str -> bool;
  (** [child.execSync(cmd, {}).toString()]; [None] when the call throws *)
  execSync : str -> option str;
  (** [workspace.rootPath]: [None] is [undefined], its value with no
      folder open *)
  rootPath : option str;
  (** [Uri.file(p).toString()]: the string by which the editor tells
      resources apart.  It need not be injective: a relative path is
      rooted, so [a.v] and [/a.v] name one resource. *)
  Uri_file : str -> str
}.

(** Node's [path.posix], the [path] of every host but Windows. *)
Module Posix.

(** The segments between the slashes of a path. *)
Fixpoint segments_acc (cur : str) (s : str) : list str :=
  match s with
  | [] => [cur]
  | c :: s' =>
      if Ascii.eqb c "/"%char then cur :: segments_acc [] s'
      else segments_acc (cur ++ [c]) s'
  end.

Definition segments (s : str) : list str := segments_acc [] s.

(** [normalizeString]: empty and [.] segments vanish; [..] removes the
    segment before it, and stays only in a relative path that has nothing
    left to remove.  [res] is the result so far, last segment first. *)
Fixpoint normalizeString (allowAboveRoot : bool) (res : list str)
         (segs : list str) : list str :=
  match segs with
  | [] => rev res
  | seg :: rest =>
      if str_eqb seg [] || str_eqb seg (lit ".")
      then normalizeString allowAboveRoot res rest
      else if str_eqb seg (lit "..") then
        match res with
        | top :: res' =>
            if str_eqb top (lit "..")
            then normalizeString allowAboveRoot
                   (if allowAboveRoot then seg :: res else res) rest
            else normalizeString allowAboveRoot res' rest
        | [] =>
            normalizeString allowAboveRoot
              (if allowAboveRoot then seg :: res else res) rest
        end
      else normalizeString allowAboveRoot (seg :: res) rest
  end.

Definition isAbsolute (p : str) : bool :=
  match p with
  | c :: _ => Ascii.eqb c "/"%char
  | [] => false
  end.

Definition normalize (p : str) : str :=
  match p with
  | [] => lit "."
  | _ =>
      let absolute := isAbsolute p in
      let trailingSeparator := Ascii.eqb (last p "."%char) "/"%char in
      let body :=
        join (lit "/") (normalizeString (negb absolute) [] (segments p)) in
      match body with
      | [] =>
          if absolute then lit "/"
          else if trailingSeparator then lit "./" else lit "."
      | _ =>
          let body := if trailingSeparator then body ++ lit "/" else body in
          if absolute then lit "/" ++ body else body
      end
  end.

(** [path.join(a, b)]: the non-empty arguments joined by a slash, then
    normalized; [.] when both are empty. *)
Definition join2 (a b : str) : str :=
  match a, b with
  | [], [] => lit "."
  | [], _ => normalize b
  | _, [] => normalize a
  | _, _ => normalize (a ++ lit "/" ++ b)
  end.

End Posix.

(** A host that is not Windows; [helper] stands for [execSync] and [root]
    for the workspace folder. *)
Definition posix_host (uri : str -> str) (helper : str -> option str)
           (root : option str) : Host := {|
  isWindows := false;
  path_join := Posix.join2;
  path_isAbsolute := Posix.isAbsolute;
  execSync := helper;
  rootPath := root;
  Uri_file := uri
|}.

(* ===================================================================== *)
(** * The editor's diagnostics *)
(* ===================================================================== *)

Module Vscode.

Inductive DiagnosticSeverity : Type :=
| Error
| Warning
| Information
| Hint.

(** A [Range]: the line and character of its start and of its end. *)
Record Range : Type := {
  startLine : number;
  startCharacter : number;
  endLine : number;
  endCharacter : number
}.

(** [new Position(line, character)] throws on a negative line or
    character: this is the check, with the error it raises. *)
Definition Position_check (line character : number) : option Exception :=
  if lt line (Fin 0) then Some line_must_be_non_negative
  else if lt character (Fin 0) then Some character_must_be_non_negative
  else None.

(** [a.isBefore(b)] on positions *)
Definition isBefore (line character line' character' : number) : bool :=
  if lt line line' then true
  else if lt line' line then false
  else lt character character'.

(** [new Range(startLine, startCharacter, endLine, endCharacter)]: the two
    positions are made first, start then end, and either may throw; the
    range starts at the earlier of the two, so a start that is not before
    the end changes places with it. *)
Definition new_Range (startLine startCharacter endLine endCharacter : number)
  : result Range :=
  match Position_check startLine startCharacter with
  | Some e => Throw e
  | None =>
      match Position_check endLine endCharacter with
      | Some e => Throw e
      | None =>
          if isBefore startLine startCharacter endLine endCharacter
          then Ok {| startLine := startLine;
                     startCharacter := startCharacter;
                     endLine := endLine;
                     endCharacter := endCharacter |}
          else Ok {| startLine := endLine;
                     startCharacter := endCharacter;
                     endLine := startLine;
                     endCharacter := startCharacter |}
      end
  end.

Record Diagnostic : Type := {
  severity : DiagnosticSeverity;
  range : Range;
  message : str;
  code : str;
  source : str
}.

(** A [Uri], as the string the editor tells resources apart by
    ([uri.toString()]); [Uri_file] of the host makes one from a path. *)
Definition Uri : Type := str.

(** The diagnostic collection: the diagnostics of each resource. *)
Definition DiagnosticCollection : Type := list (Uri * list Diagnostic).

(** [collection.clear()] *)
Definition clear (dc : DiagnosticCollection) : DiagnosticCollection := [].

(** [collection.set(uri, diagnostics)]: replaces what the resource had. *)
Fixpoint set (uri : Uri) (ds : list Diagnostic) (dc : DiagnosticCollection)
  : DiagnosticCollection :=
  match dc with
  | [] => [(uri, ds)]
  | (u, old) :: dc' =>
      if str_eqb u uri then (u, ds) :: dc' else (u, old) :: set uri ds dc'
  end.

End Vscode.

(** The extension's logger: the entries written so far, oldest first.  The
    severity is [None] where the call leaves it out. *)
Module Logger.

Inductive LogSeverity : Type :=
| info
| warn
| error
| command.

Definition Entry : Type := (str * option LogSeverity)%type.
Definition t : Type := list Entry.

Definition log (l : t) (msg : str) (sev : option LogSeverity) : t :=
  l ++ [(msg, sev)].

End Logger.

(* ===================================================================== *)
(** * The linter *)
(* ===================================================================== *)

Module VerilatorLinter.

Import RegExp Vscode Logger.

(** The fields [getConfig] fills in. *)
Record t : Type := {
  verilatorPath : str;
  verilatorArgs : str;
  runAtFileLocation : bool;
  useWSL : bool
}.

(** What [lint] reads of the document. *)
Record TextDocument : Type := {
  fsPath : str;       (* doc.uri.fsPath *)
  languageId : str
}.

(** What the completion callback of [child.exec] receives. *)
Record ExecError : Type := { error_message : str }.

Record ExecResult : Type := {
  exec_error : option ExecError;
  stdout : str;
  stderr : str
}.

(** What [lint] hands to [child.exec]; the working directory is [None]
    where the source passes [undefined]. *)
Record LintInvocation : Type := {
  invocation_command : str;
  invocation_cwd : option str
}.

(** What a lint run changes: the collection the linter publishes to, and
    the log. *)
Record World : Type := {
  diagnosticCollection : DiagnosticCollection;
  logger : Logger.t
}.

(** The callback's [diagnostics] object: its keys in insertion order, which
    is the order [Object.keys] and [for ... in] go by, each with its
    array.  The keys are file names made of a path the pattern captured,
    which ends in a dot and letters; a name an object does not keep as a
    key of its own ([__proto__]) is not among them. *)
Definition Diagnostics : Type := list (str * list Diagnostic).

Definition keys (d : Diagnostics) : list str := map fst d.

(** [diagnostics[filename].push(diagnostic)], which the callback calls for
    a file name that is among the keys. *)
Fixpoint push (filename : str) (x : Diagnostic) (d : Diagnostics)
  : Diagnostics :=
  match d with
  | [] => []
  | (f, xs) :: d' =>
      if str_eqb f filename then (f, xs ++ [x]) :: d'
      else (f, xs) :: push filename x d'
  end.

(** The grouping step of the callback: a file name not yet among the keys
    gets an array of its own, another one has the diagnostic pushed. *)
Definition file_under (filename : str) (diagnostic : Diagnostic)
           (diagnostics : Diagnostics) : Diagnostics :=
  if indexOf (keys diagnostics) filename =? -1
  then diagnostics ++ [(filename, [diagnostic])]
  else push filename diagnostic diagnostics.

(** [diagnostics.length] as it prints: the object has no such property
    unless a key has that name, so this is [undefined]; an array prints
    its elements, each a plain object, with commas between. *)
Fixpoint length_property (d : Diagnostics) : str :=
  match d with
  | [] => lit "undefined"
  | (f, xs) :: d' =>
      if str_eqb f (lit "length")
      then join (lit ",") (map (fun _ => lit "[object Object]") xs)
      else length_property d'
  end.

(** The pattern of a diagnostic line:
    [/%(\w+)(-[A-Z0-9_]+)?:\s*(.*\.[a-zA-Z]+):(\d+):(?:\s*(\d+):)?\s*(\s*.+)/] *)
Definition re : regex :=
  Char "%" ;; Group 1 (Plus Word) ;;
  Opt (Group 2 (Char "-" ;; Plus (OneOf [("A", "Z"); ("0", "9"); ("_", "_")]%char))) ;;
  Char ":" ;; Star Space ;;
  Group 3 (Star Any ;; Char "." ;; Plus (OneOf [("a", "z"); ("A", "Z")]%char)) ;;
  Char ":" ;; Group 4 (Plus Digit) ;; Char ":" ;;
  Opt (Star Space ;; Group 5 (Plus Digit) ;; Char ":") ;;
  Star Space ;; Group 6 (Star Space ;; Plus Any).

(** A capture group read as a string.  The source does so for groups 0, 1,
    3 and 6, which stand outside every optional part of the pattern and so
    are strings in every match array (lemma [exec_re_groups]). *)
Definition the (v : option str) : str :=
  match v with
  | Some s => s
  | None => []
  end.

(** The loop of [splitTerms], from index [i] on: [terms] is what stands
    from that index.  A term that is one space is spliced out and the index
    stays; any other term is replaced by its trimmed form and the index moves
    on. *)
Fixpoint splitTerms_from (terms : list str) : list str :=
  match terms with
  | [] => []
  | term :: rest =>
      if str_eqb term (lit " ") then splitTerms_from rest
      else trim term :: splitTerms_from rest
  end.

Definition splitTerms (line : str) : list str :=
  let terms := split line ":"%char in
  splitTerms_from terms.

Definition getSeverity (severityString : str) : DiagnosticSeverity :=
  let result := Information in
  if startsWith severityString (lit "Error") then Error
  else if startsWith severityString (lit "Warning") then Warning
  else result.

Section Lint.

Context {host : Host}.
Variable this : t.

(** The body of the callback for a match array [rex]: the diagnostic
    the line stands for, filed under its file name.  [path.join] throws
    when the workspace has no root, and [new Range] when the line or the
    column is below zero; the statements before a throw change nothing
    the callback keeps.  (The two [console.log] calls write to the console
    only and are left out.) *)
Definition diagnose (rex : list (option str)) (diagnostics : Diagnostics)
  : result Diagnostics :=
  let severity := getSeverity (the (get rex 1)) in
  let code :=
    match get rex 2 with
    | Some g => slice1 g
    | None => lit "verilator"
    end in
  match
    (if runAtFileLocation this then Ok (the (get rex 3))
     else if path_isAbsolute (the (get rex 3)) then Ok (the (get rex 3))
     else match rootPath with
          | Some root => Ok (path_join root (the (get rex 3)))
          | None => Throw path_must_be_a_string
          end)
  with
  | Throw e => Throw e
  | Ok filename =>
      let lineNum := sub (Number (get rex 4)) (Fin 1) in
      let colNum := sub (Number (get rex 5)) (Fin 1) in
      let message := the (get rex 6) in
      let colNum := if isNaN colNum then Fin 0 else colNum in
      if negb (isNaN lineNum) then
        match new_Range lineNum colNum lineNum MAX_VALUE with
        | Throw e => Throw e
        | Ok range =>
            let diagnostic := {|
              severity := severity;
              range := range;
              message := message;
              code := code;
              source := lit "verilator"
            |} in
            Ok (file_under filename diagnostic diagnostics)
        end
      else Ok diagnostics
  end.

(** One turn of [lines.forEach]: what it leaves of the [diagnostics]
    object and the log, and the exception it threw, if any. *)
Definition lint_line (st : Diagnostics * Logger.t) (line : str)
  : (Diagnostics * Logger.t) * option Exception :=
  let (diagnostics, logger) := st in
  if negb (search line re =? -1) then
    match match_ line re with
    | Some rex =>
        if (0 <? Z.of_nat (length (the (get rex 0))))
        then
          match diagnose rex diagnostics with
          | Ok diagnostics => ((diagnostics, logger), None)
          | Throw e => (st, Some e)
          end
        else ((diagnostics,
               log logger (lit "failed to parse error: " ++ line) (Some warn)),
              None)
    | None =>
        ((diagnostics,
          log logger (lit "failed to parse error: " ++ line) (Some warn)),
         None)
    end
  else (st, None).

(** [lines.forEach(...)]: nothing catches what a turn throws, so the first
    throw ends the loop. *)
Fixpoint forEach (lines : list str) (st : Diagnostics * Logger.t)
  : (Diagnostics * Logger.t) * option Exception :=
  match lines with
  | [] => (st, None)
  | line :: rest =>
      match lint_line st line with
      | (st', None) => forEach rest st'
      | (st', Some e) => (st', Some e)
      end
  end.

(** The text of stderr, parsed line by line. *)
Definition parse (stderr : str) (logger : Logger.t)
  : (Diagnostics * Logger.t) * option Exception :=
  forEach (split_lines stderr) ([], logger).

(** [for (const filename in diagnostics) collection.set(...)] *)
Definition publish (diagnostics : Diagnostics) (dc : DiagnosticCollection)
  : DiagnosticCollection :=
  fold_left (fun dc entry => set (Uri_file (fst entry)) (snd entry) dc)
            diagnostics dc.

(** The callback [child.exec] calls when the process is over: the world
    it leaves, and the exception that ended it, if any.  A throw in the
    loop leaves the callback before [clear], so the collection is then as
    it was. *)
Definition on_exec (r : ExecResult) (w : World) : World * option Exception :=
  let logger :=
    match exec_error r with
    | Some e => log (logger w) (error_message e) (Some error)
    | None => logger w
    end in
  match parse (stderr r) logger with
  | ((diagnostics, logger), None) =>
      let dc := clear (diagnosticCollection w) in
      let logger :=
        log logger
            (length_property diagnostics ++ lit " errors/warnings returned")
            None in
      ({| diagnosticCollection := publish diagnostics dc; logger := logger |},
       None)
  | ((_, logger), Some e) =>
      ({| diagnosticCollection := diagnosticCollection w; logger := logger |},
       Some e)
  end.

(** The command of [lint], once the executable's name and the two paths
    are settled. *)
Definition command_of (doc : TextDocument) (verilator docFolder docUri : str)
  : str :=
  let svArgs :=
    if str_eqb (languageId doc) (lit "systemverilog") then lit "-sv"
    else lit "" in
  join (lit " ")
       [ path_join (verilatorPath this) verilator;
         svArgs;
         lit "--lint-only";
         lit "-I" ++ docFolder;
         verilatorArgs this;
         docUri ].

(** [lint] up to the call of [child.exec]: the log, and the invocation,
    or [None] when [execSync] threw on the way. *)
Definition prepare (doc : TextDocument) (logger : Logger.t)
  : Logger.t * option LintInvocation :=
  let logger := log logger (lit "verilator lint requested") None in
  let docUri := fsPath doc in
  let lastIndex :=
    if isWindows then lastIndexOf docUri "\"%char
    else lastIndexOf docUri "/"%char in
  let docFolder := substr docUri 0 lastIndex in
  let runLocation :=
    if runAtFileLocation this then Some docFolder else rootPath in
  let verilator := lit "verilator" in
  let launch verilator docFolder docUri logger :=
    let command := command_of doc verilator docFolder docUri in
    (log logger command (Some Logger.command),
     Some {| invocation_command := command;
             invocation_cwd := runLocation |}) in
  if isWindows then
    if useWSL this then
      let verilator := lit "wsl " ++ verilator in
      let docUriCmd := lit "wsl wslpath '" ++ docUri ++ lit "'" in
      match execSync docUriCmd with
      | None => (logger, None)
      | Some out =>
          let docUri := strip_newlines out in
          let logger :=
            log logger
                (lit "Rewrote docUri to " ++ docUri ++ lit " for WSL")
                (Some info) in
          let docFolderCmd := lit "wsl wslpath '" ++ docFolder ++ lit "'" in
          match execSync docFolderCmd with
          | None => (logger, None)
          | Some out =>
              let docFolder := strip_newlines out in
              let logger :=
                log logger
                    (lit "Rewrote docFolder to " ++ docFolder
                         ++ lit " for WSL")
                    (Some info) in
              launch verilator docFolder docUri logger
          end
      end
    else
      launch (verilator ++ lit "_bin.exe")
             (backslash_to_slash docFolder)
             (backslash_to_slash docUri) logger
  else launch verilator docFolder docUri logger.

(** [lint(doc)], with the child process as a function from the command
    and its working directory to what the callback receives: the world
    once the callback is over, however it ended. *)
Definition lint (child_exec : str -> option str -> ExecResult)
           (doc : TextDocument) (w : World) : World :=
  match prepare doc (logger w) with
  | (logger, Some inv) =>
      fst (on_exec (child_exec (invocation_command inv) (invocation_cwd inv))
                   {| diagnosticCollection := diagnosticCollection w;
                      logger := logger |})
  | (logger, None) =>
      {| diagnosticCollection := diagnosticCollection w;
         logger := logger |}
  end.

End Lint.

End VerilatorLinter.

Import RegExp Vscode Logger VerilatorLinter.

(* ===================================================================== *)
(** * Vocabulary of the statements *)
(* ===================================================================== *)

(** A non-empty string of decimal digits. *)
Definition digits (s : str) : Prop :=
  s <> [] /\ Forall (fun x => is_digit x = true) s.

(** The arrays a match of [re] can give: groups 1, 3, 4 and 6 are strings,
    the whole match starts with the percent sign, group 4 is a number, and so
    is group 5 where it took part. *)
Inductive re_array : list (option str) -> Prop :=
| re_array_intro (whole g1 g3 g4 g6 : str) (o2 o5 : option str) :
    (exists rest, whole = "%"%char :: rest) ->
    g1 <> [] ->
    (forall g2, o2 = Some g2 -> exists tag, g2 = "-"%char :: tag) ->
    digits g4 ->
    (forall g5, o5 = Some g5 -> digits g5) ->
    g6 <> [] ->
    re_array [Some whole; Some g1; o2; Some g3; Some g4; o5; Some g6].

(** A number that is at least [lo]: an integer from [lo] on, or positive
    infinity. *)
Definition at_least (lo : Z) (n : number) : Prop :=
  match n with
  | Fin z => lo <= z
  | PosInfinity => True
  | NaN | NegInfinity => False
  end.

(** The number of diagnostics held, over all files. *)
Definition count (d : Diagnostics) : nat :=
  list_sum (map (fun entry => length (snd entry)) d).

(** The file a captured path stands for; there is none for a relative
    path when the workspace has no root to join it with. *)
Definition resolve {host : Host} (this : VerilatorLinter.t) (p : str)
  : result str :=
  if runAtFileLocation this then Ok p
  else if path_isAbsolute p then Ok p
  else match rootPath with
       | Some root => Ok (path_join root p)
       | None => Throw path_must_be_a_string
       end.

(** The line of a diagnostic, from group 4. *)
Definition line_of (rex : list (option str)) : number :=
  sub (Number (get rex 4)) (Fin 1).

(** The column of a diagnostic, from group 5. *)
Definition column_of (o5 : option str) : number :=
  match o5 with
  | Some g5 => sub (Number (Some g5)) (Fin 1)
  | None => Fin 0
  end.

(** The code of a diagnostic, from group 2. *)
Definition code_of (o2 : option str) : str :=
  match o2 with
  | Some g2 => slice1 g2
  | None => lit "verilator"
  end.

(** The range the editor makes of a line and a column that are not below
    zero: from the column to [Number.MAX_VALUE] on that line, the two in
    their order. *)
Definition range_at (line column : number) : Range := {|
  startLine := line;
  startCharacter := if lt column MAX_VALUE then column else MAX_VALUE;
  endLine := line;
  endCharacter := if lt column MAX_VALUE then MAX_VALUE else column
|}.

(** The range of a match array, from groups 4 and 5. *)
Definition range_of (rex : list (option str)) : result Range :=
  new_Range (line_of rex) (column_of (get rex 5)) (line_of rex) MAX_VALUE.

(** The diagnostic of a match array, from its groups and its range. *)
Definition diagnostic_of (rex : list (option str)) (range : Range)
  : Diagnostic := {|
  severity := getSeverity (the (get rex 1));
  range := range;
  message := the (get rex 6);
  code := code_of (get rex 2);
  source := lit "verilator"
|}.

(** What the body of the callback makes of a match array: the diagnostic
    and the file name it goes under, or the exception on the way. *)
Definition entry_of {host : Host} (this : VerilatorLinter.t)
           (rex : list (option str)) : result (str * Diagnostic) :=
  match resolve this (the (get rex 3)) with
  | Throw e => Throw e
  | Ok filename =>
      match range_of rex with
      | Throw e => Throw e
      | Ok range => Ok (filename, diagnostic_of rex range)
      end
  end.

(** Two separators in a row. *)
Fixpoint doubled_separator (s : str) : bool :=
  match s with
  | a :: s' =>
      match s' with
      | b :: _ =>
          (Ascii.eqb a " "%char && Ascii.eqb b " "%char) || doubled_separator s'
      | [] => false
      end
  | [] => false
  end.

(** [Uri.file(p).toString()] for a POSIX path that has no authority and
    no character to escape: the path, rooted, behind the scheme. *)
Definition example_uri (p : str) : str :=
  lit "file://" ++ (if Posix.isAbsolute p then p else "/"%char :: p).

(** A host and a linter to run the statements below on: not Windows, no
    helper process, the workspace at [/proj]; and the same host with no
    folder open. *)
Definition example_host : Host :=
  posix_host example_uri (fun _ => None) (Some (lit "/proj")).

Definition example_host_without_folder : Host :=
  posix_host example_uri (fun _ => None) None.

Definition example_linter (atFileLocation : bool) : VerilatorLinter.t := {|
  verilatorPath := lit "";
  verilatorArgs := lit "";
  runAtFileLocation := atFileLocation;
  useWSL := false
|}.


(** A collection that holds a diagnostic of an earlier run. *)
Definition stale_world : World := {|
  diagnosticCollection :=
    [ (lit "file:///proj/old.v",
       [ {| severity := Warning;
            range := {| startLine := Fin 0; startCharacter := Fin 0;
                        endLine := Fin 0; endCharacter := MAX_VALUE |};
            message := lit "stale";
            code := lit "verilator";
            source := lit "verilator" |} ]) ];
  logger := []
|}.

(* ===================================================================== *)
(** * Vocabulary of the further statements *)
(* ===================================================================== *)

(** A string with no white space at either end. *)
Definition trimmed (t : str) : Prop :=
  (forall c rest, t = c :: rest -> is_space c = false)
  /\ (forall front c, t = front ++ [c] -> is_space c = false).

(** A string of characters of one class of the pattern. *)
Definition all (a : atom) (s : str) : Prop :=
  Forall (fun x => test a x = true) s.

(** The text of the optional code, hyphen included, and of the optional
    column with the white space before it and the colon after it. *)
Definition tag_text (tag : option str) : str :=
  match tag with
  | Some t => "-"%char :: t
  | None => []
  end.

Definition column_text (column : option (str * str)) : str :=
  match column with
  | Some (sp, g5) => sp ++ g5 ++ [":"%char]
  | None => []
  end.

(** A match of [re], taken apart: the matched text is the percent sign, the
    keyword, the code if any, a colon, white space, the path (a stem, a dot
    and an extension of letters), a colon, the line number, a colon, the
    column if any, white space, and the message (white space and a text that
    stays on the line).  The match array holds the matched text and, as the
    six groups, the keyword, the code with its hyphen, the path, the line
    number, the column and the message. *)
Inductive re_parts (whole : str) : list (option str) -> Prop :=
| re_parts_intro (keyword : str) (tag : option str)
                 (sp1 stem ext number : str) (column : option (str * str))
                 (sp2 sp3 text : str) :
    keyword <> [] -> all Word keyword ->
    (forall t, tag = Some t ->
               t <> [] /\ all (OneOf [("A", "Z"); ("0", "9"); ("_", "_")]%char) t) ->
    all Space sp1 ->
    all Any stem ->
    ext <> [] -> all (OneOf [("a", "z"); ("A", "Z")]%char) ext ->
    digits number ->
    (forall sp g5, column = Some (sp, g5) -> all Space sp /\ digits g5) ->
    all Space sp2 -> all Space sp3 ->
    text <> [] -> all Any text ->
    whole = "%"%char :: keyword ++ tag_text tag ++ ":"%char :: sp1
              ++ (stem ++ "."%char :: ext) ++ ":"%char :: number
              ++ ":"%char :: column_text column ++ sp2 ++ sp3 ++ text ->
    re_parts whole
             [ Some whole; Some keyword; option_map (cons "-"%char) tag;
               Some (stem ++ "."%char :: ext); Some number;
               option_map snd column; Some (sp3 ++ text) ].

(** What a line of output stands for: nothing when the pattern finds
    nothing in it; otherwise a diagnostic with the file name it goes under,
    or the exception that ends the callback. *)
Definition line_entry {host : Host} (this : VerilatorLinter.t) (line : str)
  : option (result (str * Diagnostic)) :=
  match exec re line with
  | Some m => Some (entry_of this (array m))
  | None => None
  end.

(** The diagnostics of some lines of output, in the order of the lines. *)
Definition entries {host : Host} (this : VerilatorLinter.t)
           (lines : list str) : list (str * Diagnostic) :=
  flat_map (fun line =>
              match line_entry this line with
              | Some (Ok e) => [e]
              | _ => []
              end) lines.

(** The object the callback has built of some lines of output when none
    of them has thrown. *)
Definition filed {host : Host} (this : VerilatorLinter.t)
           (lines : list str) : Diagnostics :=
  fold_left (fun d e => file_under (fst e) (snd e) d) (entries this lines) [].

(** The first exception among some lines of output, if any. *)
Fixpoint first_throw {host : Host} (this : VerilatorLinter.t)
         (lines : list str) : option Exception :=
  match lines with
  | [] => None
  | line :: rest =>
      match line_entry this line with
      | Some (Throw e) => Some e
      | _ => first_throw this rest
      end
  end.

(** The file name, among [names], whose resource is [uri]: the last of
    them, the one whose [set] is the last to reach the resource. *)
Definition last_file_at {host : Host} (uri : Uri) (names : list str)
  : option str :=
  find (fun f => str_eqb (Uri_file f) uri) (rev names).

(** What a collection holds for one file. *)
Definition diagnostics_for (f : str) (d : list (str * list Diagnostic))
  : list Diagnostic :=
  flat_map (fun entry => if str_eqb (fst entry) f then snd entry else []) d.

(** The distinct names of a list, in the order they first occur, but for
    those [seen] already. *)
Fixpoint first_occurrences (seen : list str) (names : list str) : list str :=
  match names with
  | [] => []
  | x :: rest =>
      if existsb (str_eqb x) seen then first_occurrences seen rest
      else x :: first_occurrences (seen ++ [x]) rest
  end.

(** The separator [lint] looks for in the document's path. *)
Definition separator {host : Host} : ascii :=
  if isWindows then "\"%char else "/"%char.

(** The two commands [lint] hands to the path-translation helper. *)
Definition docUriCmd (doc : TextDocument) : str :=
  lit "wsl wslpath '" ++ fsPath doc ++ lit "'".

Definition docFolderCmd (doc : TextDocument) : str :=
  lit "wsl wslpath '"
    ++ substr (fsPath doc) 0 (lastIndexOf (fsPath doc) "\"%char) ++ lit "'".

(** A Windows host to run statements on.  Its [path.join] stands in for
    Node's on a plain directory and a file name, which is all it is given
    there, and its [Uri.file] for the editor's on a path with nothing to
    escape; [helper] stands for [execSync]. *)
Definition example_windows_host (helper : str -> option str) : Host := {|
  isWindows := true;
  path_join := fun dir name =>
                 match dir with
                 | [] => name
                 | _ => dir ++ "\"%char :: name
                 end;
  path_isAbsolute := fun p => startsWith p (lit "C:\");
  execSync := helper;
  rootPath := Some (lit "C:\proj");
  Uri_file := fun p => lit "file:///" ++ backslash_to_slash p
|}.

(** A helper that translates [C:\proj\top.sv] and its folder, each answer
    ending in a line feed, and one that fails. *)
Definition example_wslpath (cmd : str) : option str :=
  if str_eqb cmd (lit "wsl wslpath 'C:\proj\top.sv'")
  then Some (lit "/mnt/c/proj/top.sv" ++ [LF])
  else if str_eqb cmd (lit "wsl wslpath 'C:\proj'")
       then Some (lit "/mnt/c/proj" ++ [LF])
       else None.

Definition failing_wslpath (cmd : str) : option str := None.

(* ===================================================================== *)
(** * The model at work *)
(* ===================================================================== *)

(** The pattern on a line of an old Verilator, without a column. *)
Example re_without_column :
  match_ (lit "%Error: /tmp/foo.sv:10: syntax error") re
  = Some [ Some (lit "%Error: /tmp/foo.sv:10: syntax error");
           Some (lit "Error"); None; Some (lit "/tmp/foo.sv");
           Some (lit "10"); None; Some (lit "syntax error") ].
Proof. vm_compute. reflexivity. Qed.

(** The pattern is not anchored: the match starts at the percent sign. *)
Example re_with_code_and_column :
  exec re (lit "- %Warning-WIDTH: foo.sv:5:3: bit width mismatch")
  = Some {| index := 2;
            array :=
              [ Some (lit "%Warning-WIDTH: foo.sv:5:3: bit width mismatch");
                Some (lit "Warning"); Some (lit "-WIDTH");
                Some (lit "foo.sv"); Some (lit "5"); Some (lit "3");
                Some (lit "bit width mismatch") ] |}.
Proof. vm_compute. reflexivity. Qed.

(** The path is greedy: it runs up to the last place that still leaves a
    line number and a message. *)
Example re_greedy_path :
  match_ (lit "%Error: foo.v:10:5: see bar.v:3: x") re
  = Some [ Some (lit "%Error: foo.v:10:5: see bar.v:3: x");
           Some (lit "Error"); None; Some (lit "foo.v:10:5: see bar.v");
           Some (lit "3"); None; Some (lit "x") ].
Proof. vm_compute. reflexivity. Qed.

(** A path without an extension is not matched. *)
Example re_needs_extension :
  match_ (lit "%Error: Makefile:10: syntax error") re = None.
Proof. vm_compute. reflexivity. Qed.

Example split_lines_both_endings :
  split_lines (lit "a" ++ [CR; LF] ++ lit "b" ++ [LF] ++ lit "c" ++ [CR])
  = [lit "a"; lit "b"; lit "c" ++ [CR]].
Proof. vm_compute. reflexivity. Qed.

Example to_double_rounds_to_even :
  to_double (2 ^ 53 + 1) = Fin (2 ^ 53)
  /\ to_double (2 ^ 53 + 3) = Fin (2 ^ 53 + 4)
  /\ to_double (2 ^ 1024 - 2 ^ 970 - 1) = MAX_VALUE
  /\ to_double (2 ^ 1024 - 2 ^ 970) = PosInfinity.
Proof. repeat split; vm_compute; reflexivity. Qed.

Example posix_join_examples :
  Posix.join2 (lit "/proj") (lit "foo.sv") = lit "/proj/foo.sv"
  /\ Posix.join2 (lit "") (lit "verilator") = lit "verilator"
  /\ Posix.join2 (lit "/opt/bin/") (lit "verilator") = lit "/opt/bin/verilator"
  /\ Posix.join2 (lit "/proj") (lit "../inc/./defs.vh") = lit "/inc/defs.vh"
  /\ Posix.join2 (lit "a") (lit "../../b.v") = lit "../b.v".
Proof. repeat split; vm_compute; reflexivity. Qed.

(** Two lines about two files: an entry each, in the order met. *)
Example two_files_in_order :
  map fst
      (diagnosticCollection
         (fst (@on_exec example_host (example_linter false)
                        {| exec_error := None; stdout := [];
                           stderr := lit "%Error: b.v:1: x" ++ [LF]
                                         ++ lit "%Warning-W: /a.v:2:1: y"
                                         ++ [LF] |}
                        stale_world)))
  = [lit "file:///proj/b.v"; lit "file:///a.v"].
Proof. vm_compute. reflexivity. Qed.

(** The editor's ranges: a position below zero is refused, and a start
    that is not before the end changes places with it. *)
Example new_Range_examples :
  new_Range (Fin 9) (Fin 0) (Fin 9) MAX_VALUE
  = Ok {| startLine := Fin 9; startCharacter := Fin 0;
          endLine := Fin 9; endCharacter := MAX_VALUE |}
  /\ new_Range (Fin (-1)) (Fin 0) (Fin (-1)) MAX_VALUE
     = Throw line_must_be_non_negative
  /\ new_Range (Fin 9) (Fin (-1)) (Fin 9) MAX_VALUE
     = Throw character_must_be_non_negative
  /\ new_Range (Fin 9) PosInfinity (Fin 9) MAX_VALUE
     = Ok {| startLine := Fin 9; startCharacter := MAX_VALUE;
             endLine := Fin 9; endCharacter := PosInfinity |}
  /\ new_Range (Fin 5) (Fin 3) (Fin 2) (Fin 7)
     = Ok {| startLine := Fin 2; startCharacter := Fin 7;
             endLine := Fin 5; endCharacter := Fin 3 |}.
Proof. repeat split; vm_compute; reflexivity. Qed.

(** With no folder open, a relative path ends the callback as well. *)
Example no_folder_ends_the_callback :
  @on_exec example_host_without_folder (example_linter false)
           {| exec_error := None; stdout := [];
              stderr := lit "%Error: b.v:1: x" |}
           stale_world
  = (stale_world, Some path_must_be_a_string)
  /\ snd (@on_exec example_host_without_folder (example_linter false)
                   {| exec_error := None; stdout := [];
                      stderr := lit "%Error: /b.v:1: x" |}
                   stale_world)
     = None.
Proof. split; vm_compute; reflexivity. Qed.

(** A line about line 0 ends the callback: the diagnostics of the lines
    before it are not published, and the collection stays as it was. *)
Example line_zero_ends_the_callback :
  @on_exec example_host (example_linter false)
           {| exec_error := None; stdout := [];
              stderr := lit "%Error: b.v:1: x" ++ [LF]
                            ++ lit "%Error: a.v:0: y" ++ [LF] |}
           stale_world
  = (stale_world, Some line_must_be_non_negative).
Proof. vm_compute. reflexivity. Qed.

(* ===================================================================== *)
(** * Strings *)
(* ===================================================================== *)

Lemma str_eqb_refl (a : str) : str_eqb a a = true.
Proof.
  induction a as [|x a IH]; simpl; [reflexivity|].
  now rewrite Ascii.eqb_refl.
Qed.

Lemma str_eqb_eq (a b : str) : str_eqb a b = true <-> a = b.
Proof.
  split; [|intros ->; apply str_eqb_refl].
  revert b; induction a as [|x a IH]; intros [|y b]; simpl; try discriminate.
  - reflexivity.
  - intros H. apply andb_true_iff in H as [Hx Hr].
    apply Ascii.eqb_eq in Hx. now rewrite Hx, (IH _ Hr).
Qed.

Lemma str_eqb_neq (a b : str) : str_eqb a b = false <-> a <> b.
Proof.
  rewrite <- str_eqb_eq. destruct (str_eqb a b); split; congruence.
Qed.

(** [startsWith] holds of the strings that continue the prefix. *)
Lemma startsWith_prefix (s p : str) :
  startsWith s p = true <-> exists rest, s = p ++ rest.
Proof.
  revert s; induction p as [|x p IH]; intros s; simpl.
  - split; [intros _; now exists s | now destruct s].
  - destruct s as [|y s].
    + split; [discriminate | intros [rest H]; discriminate].
    + simpl. rewrite andb_true_iff, Ascii.eqb_eq, IH. split.
      * intros [-> [rest ->]]. now exists rest.
      * intros [rest H]. injection H as -> ->. split; [reflexivity | now exists rest].
Qed.

Lemma firstn_length_app (A : Type) (pre rest : list A) :
  firstn (length (pre ++ rest) - length rest) (pre ++ rest) = pre.
Proof.
  rewrite length_app.
  replace (length pre + length rest - length rest)%nat with (length pre) by lia.
  rewrite firstn_app, Nat.sub_diag, firstn_all. simpl. apply app_nil_r.
Qed.

(* ===================================================================== *)
(** * The matcher finds only what the pattern describes *)
(* ===================================================================== *)

Module MatcherFacts.


Lemma rep_reads (answer : Type) (p : ascii -> bool) (s : str)
      (k : str -> option answer) (a : answer) :
  rep p s k = Some a ->
  exists pre s', s = pre ++ s' /\ Forall (fun x => p x = true) pre
                 /\ k s' = Some a.
Proof.
  induction s as [|x s IH]; simpl; intros H.
  - exists [], []. auto.
  - destruct (p x) eqn:Hp.
    + destruct (rep p s k) as [b|] eqn:Hrep.
      * injection H as ->.
        destruct (IH eq_refl) as (pre & s' & -> & Hall & Hk).
        exists (x :: pre), s'. auto.
      * exists [], (x :: s). auto.
    + exists [], (x :: s). auto.
Qed.

Lemma matcher_reads (answer : Type) (r : regex) :
  forall (s : str) (c : captures) (k : str -> captures -> option answer)
         (a : answer),
    matcher r s c k = Some a ->
    exists s' c', reads r s s' c c' /\ k s' c' = Some a.
Proof.
  induction r as [a0|a0|a0|r1 IH1|r1 IH1 r2 IH2|n r1 IH1];
    intros s c k a H; simpl in H.
  - destruct s as [|x s]; [discriminate|].
    destruct (Ascii.eqb x a0) eqn:E; [|discriminate].
    apply Ascii.eqb_eq in E; subst x.
    exists s, c. simpl. auto.
  - apply rep_reads in H as (pre & s' & -> & Hall & Hk).
    exists s', c. simpl. eauto.
  - destruct s as [|x s]; [discriminate|].
    destruct (test a0 x) eqn:E; [|discriminate].
    apply rep_reads in H as (pre & s' & -> & Hall & Hk).
    exists s', c. simpl. split; [|assumption]. split; [|reflexivity].
    exists (x :: pre). repeat split; [discriminate | auto].
  - destruct (matcher r1 s c k) as [b|] eqn:E.
    + injection H as ->.
      destruct (IH1 _ _ _ _ E) as (s' & c' & Hr & Hk).
      exists s', c'. simpl. auto.
    + exists s, c. simpl. auto.
  - destruct (IH1 _ _ _ _ H) as (s1 & c1 & Hr1 & Hk1).
    destruct (IH2 _ _ _ _ Hk1) as (s' & c' & Hr2 & Hk).
    exists s', c'. simpl. eauto.
  - destruct (IH1 _ _ _ _ H) as (s' & c1 & Hr & Hk).
    exists s', (capture n (consumed s s') c1). simpl. eauto.
Qed.

(** A match reads a prefix of its input. *)
Lemma reads_prefix (r : regex) :
  forall s s' c c', reads r s s' c c' -> exists pre, s = pre ++ s'.
Proof.
  induction r as [a0|a0|a0|r1 IH1|r1 IH1 r2 IH2|n r1 IH1];
    intros s s' c c'; simpl.
  - intros [-> _]. now exists [a0].
  - intros [(pre & -> & _) _]. now exists pre.
  - intros [(pre & -> & _) _]. now exists pre.
  - intros [H|[-> _]]; [eauto | now exists []].
  - intros (s1 & c1 & H1 & H2).
    destruct (IH1 _ _ _ _ H1) as [p1 ->].
    destruct (IH2 _ _ _ _ H2) as [p2 ->].
    exists (p1 ++ p2). now rewrite app_assoc.
  - intros (c1 & H & _). eauto.
Qed.

Lemma consumed_app (pre rest : str) : consumed (pre ++ rest) rest = pre.
Proof. apply firstn_length_app. Qed.

Lemma capture_same (n : nat) (v : str) (c : captures) :
  capture n v c n = Some v.
Proof. unfold capture. now rewrite Nat.eqb_refl. Qed.

Lemma capture_other (n i : nat) (v : str) (c : captures) :
  i <> n -> capture n v c i = c i.
Proof.
  intros H. unfold capture. apply Nat.eqb_neq in H. now rewrite H.
Qed.

(** The clauses of [reads], one per operator. *)
Lemma reads_char a s s' c c' :
  reads (Char a) s s' c c' -> s = a :: s' /\ c' = c.
Proof. exact (fun H => H). Qed.

Lemma reads_seq r1 r2 s s' c c' :
  reads (r1 ;; r2) s s' c c' ->
  exists s1 c1, reads r1 s s1 c c1 /\ reads r2 s1 s' c1 c'.
Proof. exact (fun H => H). Qed.

Lemma reads_star a s s' c c' :
  reads (Star a) s s' c c' ->
  exists pre, s = pre ++ s' /\ Forall (fun x => test a x = true) pre /\ c' = c.
Proof. intros [(pre & H1 & H2) H3]. eauto. Qed.

Lemma reads_plus a s s' c c' :
  reads (Plus a) s s' c c' ->
  exists pre, s = pre ++ s' /\ pre <> []
              /\ Forall (fun x => test a x = true) pre /\ c' = c.
Proof. intros [(pre & H1 & H2 & H3) H4]. eauto 6. Qed.

Lemma reads_opt r s s' c c' :
  reads (Opt r) s s' c c' -> reads r s s' c c' \/ (s' = s /\ c' = c).
Proof. exact (fun H => H). Qed.

(** A group captures the prefix its body read. *)
Lemma reads_group n r s s' c c' :
  reads (Group n r) s s' c c' ->
  exists pre c1, s = pre ++ s' /\ reads r (pre ++ s') s' c c1
                 /\ c' = capture n pre c1.
Proof.
  intros (c1 & Hr & ->).
  destruct (reads_prefix _ _ _ _ _ Hr) as [pre ->].
  exists pre, c1. now rewrite consumed_app.
Qed.

Lemma reads_group_plus n a s s' c c' :
  reads (Group n (Plus a)) s s' c c' ->
  exists pre, s = pre ++ s' /\ pre <> []
              /\ Forall (fun x => test a x = true) pre
              /\ c' = capture n pre c.
Proof.
  intros H. apply reads_group in H as (pre & c1 & -> & Hr & ->).
  apply reads_plus in Hr as (pre' & E & Hne & Hall & ->).
  apply app_inv_tail in E. subst pre'. eauto 6.
Qed.

End MatcherFacts.

(* ===================================================================== *)
(** * The match arrays of the diagnostic pattern *)
(* ===================================================================== *)


Lemma test_Digit (x : ascii) : test Digit x = is_digit x.
Proof. reflexivity. Qed.

Lemma match_here_re (s : str) (a : list (option str)) :
  match_here re s = Some a -> re_array a.
Proof.
  unfold match_here. intros H.
  destruct (matcher re s no_captures (fun s' c => Some (s', c)))
    as [[s' c]|] eqn:E; [|discriminate].
  injection H as <-.
  apply MatcherFacts.matcher_reads in E as (s1 & c1 & Hr & Hk).
  injection Hk as -> ->.
  unfold re in Hr.
  (* the percent sign, and the whole match *)
  apply MatcherFacts.reads_seq in Hr as (t1 & c1 & H1 & Hr).
  apply MatcherFacts.reads_char in H1 as [-> ->].
  destruct (MatcherFacts.reads_prefix _ _ _ _ _ Hr) as [rest Erest].
  assert (Hwhole : consumed ("%"%char :: t1) s' = "%"%char :: rest).
  { rewrite Erest. apply (MatcherFacts.consumed_app ("%"%char :: rest)). }
  clear Erest.
  (* group 1 *)
  apply MatcherFacts.reads_seq in Hr as (t2 & c2 & H2 & Hr).
  apply MatcherFacts.reads_group_plus in H2 as (g1 & -> & Hg1 & _ & ->).
  (* group 2, optional *)
  apply MatcherFacts.reads_seq in Hr as (t3 & c3 & H3 & Hr).
  assert (Hc3 : exists o2, (forall g2, o2 = Some g2 -> exists tag, g2 = "-"%char :: tag)
                           /\ c3 1%nat = Some g1 /\ c3 2%nat = o2
                           /\ forall i, (2 < i)%nat -> c3 i = None).
  { apply MatcherFacts.reads_opt in H3 as [H3|[-> ->]].
    - apply MatcherFacts.reads_group in H3 as (g2 & c' & E2 & H3 & ->).
      apply MatcherFacts.reads_seq in H3 as (u & c'' & Hd & Hp).
      apply MatcherFacts.reads_char in Hd as [Hd ->].
      apply MatcherFacts.reads_plus in Hp as (tag & -> & _ & _ & ->).
      change ("-"%char :: tag ++ t3) with (("-"%char :: tag) ++ t3) in Hd.
      apply app_inv_tail in Hd. subst g2.
      exists (Some ("-"%char :: tag)). repeat split.
      + intros g2 [= <-]. now exists tag.
      + intros i Hi. unfold capture.
        destruct i as [|[|[|i]]]; try lia; reflexivity.
    - exists None. repeat split; [discriminate|].
      intros i Hi. unfold capture.
      destruct i as [|[|[|i]]]; try lia; reflexivity. }
  destruct Hc3 as (o2 & Ho2 & Hc31 & Hc32 & Hc3hi). clear H3.
  (* colon, spaces, group 3 *)
  apply MatcherFacts.reads_seq in Hr as (t4 & c4 & H4 & Hr).
  apply MatcherFacts.reads_char in H4 as [-> ->].
  apply MatcherFacts.reads_seq in Hr as (t5 & c5 & H5 & Hr).
  apply MatcherFacts.reads_star in H5 as (sp1 & -> & _ & ->).
  apply MatcherFacts.reads_seq in Hr as (t6 & c6 & H6 & Hr).
  apply MatcherFacts.reads_group in H6 as (g3 & c' & -> & H6 & ->).
  assert (c' = c3) as ->.
  { apply MatcherFacts.reads_seq in H6 as (u1 & d1 & Ha & H6).
    apply MatcherFacts.reads_star in Ha as (? & _ & _ & ->).
    apply MatcherFacts.reads_seq in H6 as (u2 & d2 & Hb & H6).
    apply MatcherFacts.reads_char in Hb as [_ ->].
    now apply MatcherFacts.reads_plus in H6 as (? & _ & _ & _ & ->). }
  clear H6.
  (* colon, group 4, colon *)
  apply MatcherFacts.reads_seq in Hr as (t7 & c7 & H7 & Hr).
  apply MatcherFacts.reads_char in H7 as [-> ->].
  apply MatcherFacts.reads_seq in Hr as (t8 & c8 & H8 & Hr).
  apply MatcherFacts.reads_group_plus in H8 as (g4 & -> & Hg4 & Hd4 & ->).
  apply MatcherFacts.reads_seq in Hr as (t9 & c9 & H9 & Hr).
  apply MatcherFacts.reads_char in H9 as [-> ->].
  (* group 5, optional *)
  apply MatcherFacts.reads_seq in Hr as (t10 & c10 & H10 & Hr).
  set (c8 := capture 4 g4 (capture 3 g3 c3)) in *.
  assert (Hc10 : exists o5, (forall g5, o5 = Some g5 -> digits g5)
                            /\ c10 5%nat = o5
                            /\ forall i, i <> 5%nat -> c10 i = c8 i).
  { apply MatcherFacts.reads_opt in H10 as [H10|[-> ->]].
    - apply MatcherFacts.reads_seq in H10 as (u1 & d1 & Ha & H10).
      apply MatcherFacts.reads_star in Ha as (? & _ & _ & ->).
      apply MatcherFacts.reads_seq in H10 as (u2 & d2 & Hb & H10).
      apply MatcherFacts.reads_group_plus in Hb as (g5 & _ & Hg5 & Hd5 & ->).
      apply MatcherFacts.reads_char in H10 as [_ ->].
      exists (Some g5). split; [|split].
      + intros ? [= <-]. split; assumption.
      + apply MatcherFacts.capture_same.
      + intros i Hi. now apply MatcherFacts.capture_other.
    - exists None. split; [discriminate|]. split; [|reflexivity].
      unfold c8. rewrite !MatcherFacts.capture_other by lia.
      apply Hc3hi. lia. }
  destruct Hc10 as (o5 & Ho5 & Hc105 & Hc10o). clear H10.
  (* spaces, group 6 *)
  apply MatcherFacts.reads_seq in Hr as (t11 & c11 & H11 & Hr).
  apply MatcherFacts.reads_star in H11 as (sp2 & -> & _ & ->).
  apply MatcherFacts.reads_group in Hr as (g6 & c' & -> & H12 & ->).
  assert (c' = c10 /\ g6 <> []) as [-> Hg6].
  { apply MatcherFacts.reads_seq in H12 as (u1 & d1 & Ha & H12).
    apply MatcherFacts.reads_star in Ha as (p1 & E1 & _ & ->).
    apply MatcherFacts.reads_plus in H12 as (p2 & -> & Hp2 & _ & ->).
    split; [reflexivity|].
    rewrite app_assoc in E1. apply app_inv_tail in E1. subst g6.
    destruct p1; [assumption | discriminate]. }
  clear H12.
  (* the array *)
  cbn [groups re Nat.max seq map].
  rewrite Hwhole.
  assert (E1 : capture 6 g6 c10 1%nat = Some g1).
  { rewrite MatcherFacts.capture_other, Hc10o by lia. exact Hc31. }
  assert (E2 : capture 6 g6 c10 2%nat = o2).
  { rewrite MatcherFacts.capture_other, Hc10o by lia. exact Hc32. }
  assert (E3 : capture 6 g6 c10 3%nat = Some g3).
  { rewrite MatcherFacts.capture_other, Hc10o by lia. reflexivity. }
  assert (E4 : capture 6 g6 c10 4%nat = Some g4).
  { rewrite MatcherFacts.capture_other, Hc10o by lia. reflexivity. }
  assert (E5 : capture 6 g6 c10 5%nat = o5).
  { rewrite MatcherFacts.capture_other by lia. exact Hc105. }
  rewrite E1, E2, E3, E4, E5, MatcherFacts.capture_same.
  constructor; try assumption.
  - now exists rest.
  - split; assumption.
Qed.

Lemma match_here_percent (s : str) (a : list (option str)) :
  match_here re s = Some a -> exists s', s = "%"%char :: s'.
Proof.
  unfold match_here. intros H.
  destruct (matcher re s no_captures (fun s' c => Some (s', c)))
    as [[s' c]|] eqn:E; [|discriminate].
  apply MatcherFacts.matcher_reads in E as (s1 & c1 & Hr & _).
  unfold re in Hr.
  apply MatcherFacts.reads_seq in Hr as (t1 & d1 & H1 & _).
  apply MatcherFacts.reads_char in H1 as [-> _]. now exists t1.
Qed.

Lemma exec_from_index (r : regex) (s : str) :
  forall i m, exec_from r i s = Some m -> i <= index m.
Proof.
  induction s as [|x s IH]; intros i m; cbn [exec_from];
    destruct (match_here r _) as [a|]; intros H;
    try (injection H as <-; simpl; lia); try discriminate.
  apply IH in H. lia.
Qed.

Lemma exec_from_re_array (s : str) :
  forall i m, exec_from re i s = Some m -> re_array (array m).
Proof.
  induction s as [|x s IH]; intros i m; cbn [exec_from];
    destruct (match_here re _) as [a|] eqn:E; intros H;
    try (injection H as <-; simpl; now apply match_here_re in E);
    try discriminate.
  now apply IH in H.
Qed.

(** Without a percent sign there is nowhere for a match to start. *)
Lemma exec_from_no_percent (s : str) :
  ~ In "%"%char s -> forall i, exec_from re i s = None.
Proof.
  induction s as [|x s IH]; intros Hno i; cbn [exec_from].
  - destruct (match_here re []) as [a|] eqn:E; [|reflexivity].
    apply match_here_percent in E as [s' E]. discriminate.
  - destruct (match_here re (x :: s)) as [a|] eqn:E.
    + apply match_here_percent in E as [s' E]. injection E as -> _.
      exfalso. apply Hno. now left.
    + apply IH. intros H. apply Hno. now right.
Qed.

(** Groups 0, 1, 3 and 6 of a match array of [re] are strings, as
    [VerilatorLinter.the] reads them. *)
Lemma exec_re_groups (line : str) (m : MatchResult) :
  exec re line = Some m ->
  0 <= index m /\ re_array (array m).
Proof.
  intros H. split.
  - exact (exec_from_index _ _ _ H).
  - exact (exec_from_re_array _ _ H).
Qed.

(* ===================================================================== *)
(** * Numbers read from digits *)
(* ===================================================================== *)


Lemma to_double_exact (v : Z) : Z.abs v <= 2 ^ 53 -> to_double v = Fin v.
Proof.
  intros H. unfold to_double.
  destruct (Z.leb_spec (Z.abs v) (2 ^ 53)); [reflexivity | lia].
Qed.

Lemma to_double_at_least (lo v : Z) :
  - 2 ^ 53 <= lo <= 0 -> lo <= v -> at_least lo (to_double v).
Proof.
  intros Hlo Hv. unfold to_double.
  destruct (Z.leb_spec (Z.abs v) (2 ^ 53)) as [Hs|Hb]; [exact Hv|].
  assert (Hpos : 0 < v) by lia.
  cbv zeta.
  match goal with |- context [2 ^ 1024 <=? ?m] => set (big := m) end.
  destruct (2 ^ 1024 <=? big).
  - destruct (Z.ltb_spec v 0); [lia | exact I].
  - simpl. rewrite (Z.sgn_pos v Hpos).
    assert (0 <= big); [|lia].
    subst big. apply Z.mul_nonneg_nonneg; [|apply Z.pow_nonneg; lia].
    assert (0 <= Z.abs v / 2 ^ (Z.log2 (Z.abs v) - 52)).
    { apply Z_div_nonneg_nonneg; [lia | apply Z.pow_nonneg; lia]. }
    destruct (_ || _); lia.
Qed.

Lemma digit_value_range (c : ascii) :
  is_digit c = true -> 0 <= digit_value c <= 9.
Proof.
  unfold is_digit, digit_value. intros H.
  apply andb_true_iff in H as [H1 H2].
  apply N.leb_le in H1. apply N.leb_le in H2. lia.
Qed.

Lemma decimal_from_nonneg (s : str) :
  Forall (fun x => is_digit x = true) s ->
  forall acc, 0 <= acc ->
    0 <= fold_left (fun acc c => 10 * acc + digit_value c) s acc.
Proof.
  induction 1 as [|c s Hc _ IH]; intros acc Hacc; cbn [fold_left];
    [assumption|].
  apply IH. pose proof (digit_value_range _ Hc). lia.
Qed.

Lemma decimal_nonneg (s : str) :
  Forall (fun x => is_digit x = true) s -> 0 <= decimal s.
Proof. intros H. apply decimal_from_nonneg; [assumption | lia]. Qed.

Lemma Number_digits (s : str) :
  Forall (fun x => is_digit x = true) s ->
  Number (Some s) = to_double (decimal s).
Proof.
  intros H. unfold Number.
  replace (forallb is_digit s) with true; [reflexivity|].
  symmetry. apply forallb_forall. now apply Forall_forall.
Qed.

(** A string of digits reads as a number from 0 on, and one less is a
    number from -1 on: neither is NaN. *)
Lemma Number_digits_at_least (s : str) :
  Forall (fun x => is_digit x = true) s ->
  at_least 0 (Number (Some s))
  /\ at_least (-1) (sub (Number (Some s)) (Fin 1)).
Proof.
  intros H. rewrite (Number_digits H).
  pose proof (decimal_nonneg H) as Hd.
  assert (H0 : at_least 0 (to_double (decimal s))).
  { apply to_double_at_least; lia. }
  split; [assumption|].
  destruct (to_double (decimal s)) as [| | |z]; simpl in *; try tauto.
  apply to_double_at_least; lia.
Qed.

Lemma at_least_not_NaN (lo : Z) (n : number) : at_least lo n -> isNaN n = false.
Proof. destruct n; simpl; tauto. Qed.

(** In the range where doubles are exact, one less than a string of digits
    is one less than its value. *)
Lemma Number_digits_minus_one (s : str) :
  Forall (fun x => is_digit x = true) s ->
  decimal s <= 2 ^ 53 ->
  sub (Number (Some s)) (Fin 1) = Fin (decimal s - 1).
Proof.
  intros H Hle. rewrite (Number_digits H).
  pose proof (decimal_nonneg H) as Hd.
  rewrite to_double_exact by lia. simpl.
  apply to_double_exact. lia.
Qed.

(** From 1 on, the nearest double is from 1 on as well. *)
Lemma to_double_positive (v : Z) : 1 <= v -> at_least 1 (to_double v).
Proof.
  intros Hv. unfold to_double.
  destruct (Z.leb_spec (Z.abs v) (2 ^ 53)) as [Hs|Hb]; [exact Hv|].
  rewrite (Z.abs_eq v) in * by lia.
  assert (He : 53 <= Z.log2 v).
  { rewrite <- (Z.log2_pow2 53) by lia. apply Z.log2_le_mono. lia. }
  assert (Hpow : 0 < 2 ^ (Z.log2 v - 52) <= v).
  { split; [apply Z.pow_pos_nonneg; lia|].
    apply Z.le_trans with (2 ^ Z.log2 v).
    - apply Z.pow_le_mono_r; lia.
    - apply Z.log2_spec. lia. }
  pose proof (Z.div_str_pos _ _ Hpow) as Hq.
  cbv zeta.
  match goal with |- context [2 ^ 1024 <=? ?m] => set (big := m) end.
  assert (Hbig : 1 <= big).
  { subst big. destruct (_ || _); nia. }
  destruct (2 ^ 1024 <=? big).
  - destruct (Z.ltb_spec v 0); [lia | exact I].
  - simpl. rewrite Z.sgn_pos by lia. lia.
Qed.

(** The line number of a diagnostic, from the number the tool gave: below
    zero for the tool's line 0 alone. *)
Lemma Number_digits_line (s : str) :
  Forall (fun x => is_digit x = true) s ->
  (1 <= decimal s -> at_least 0 (sub (Number (Some s)) (Fin 1)))
  /\ (decimal s = 0 -> sub (Number (Some s)) (Fin 1) = Fin (-1)).
Proof.
  intros H. split.
  - intros Hpos. rewrite (Number_digits H).
    pose proof (to_double_positive Hpos) as H1.
    destruct (to_double (decimal s)) as [| | |z]; simpl in *; try tauto.
    apply to_double_at_least; lia.
  - intros Hzero. rewrite (Number_digits_minus_one H) by lia.
    now rewrite Hzero.
Qed.

(* ===================================================================== *)
(** * Grouping by file *)
(* ===================================================================== *)


Lemma indexOf_from_absent (a : list str) (x : str) :
  forall i, 0 <= i -> (indexOf_from i a x = -1 <-> ~ In x a).
Proof.
  induction a as [|y a IH]; intros i Hi; simpl.
  - tauto.
  - destruct (str_eqb y x) eqn:E.
    + apply str_eqb_eq in E. subst y. split; [lia | intros H; exfalso; auto].
    + apply str_eqb_neq in E. rewrite IH by lia. tauto.
Qed.

Lemma indexOf_absent (a : list str) (x : str) :
  indexOf a x = -1 <-> ~ In x a.
Proof. apply indexOf_from_absent. lia. Qed.

Lemma count_app (d1 d2 : Diagnostics) : count (d1 ++ d2) = (count d1 + count d2)%nat.
Proof. unfold count. now rewrite map_app, list_sum_app. Qed.

Lemma count_push (f : str) (x : Diagnostic) (d : Diagnostics) :
  In f (keys d) -> count (push f x d) = S (count d).
Proof.
  induction d as [|[g xs] d IH]; simpl; [tauto|].
  intros H. destruct (str_eqb g f) eqn:E.
  - unfold count. simpl. rewrite length_app. simpl. lia.
  - apply str_eqb_neq in E. destruct H as [H|H]; [congruence|].
    unfold count in *. simpl. rewrite (IH H). lia.
Qed.

(** Filing a diagnostic adds exactly one. *)
Lemma count_file_under (f : str) (x : Diagnostic) (d : Diagnostics) :
  count (file_under f x d) = S (count d).
Proof.
  unfold file_under.
  destruct (Z.eqb_spec (indexOf (keys d) f) (-1)) as [E|E].
  - rewrite count_app. unfold count at 2. simpl. lia.
  - apply count_push.
    destruct (in_dec (list_eq_dec Ascii.ascii_dec) f (keys d)) as [H|H];
      [assumption|].
    apply indexOf_absent in H. contradiction.
Qed.

Lemma push_ends (f : str) (x : Diagnostic) (d : Diagnostics) :
  In f (keys d) -> exists earlier, In (f, earlier ++ [x]) (push f x d).
Proof.
  induction d as [|[g xs] d IH]; simpl; [tauto|].
  intros H. destruct (str_eqb g f) eqn:E.
  - apply str_eqb_eq in E. subst g. exists xs. now left.
  - apply str_eqb_neq in E. destruct H as [H|H]; [congruence|].
    destruct (IH H) as [earlier Hin]. exists earlier. now right.
Qed.

(** The diagnostic filed is the last one under its file name. *)
Lemma file_under_ends (f : str) (x : Diagnostic) (d : Diagnostics) :
  exists earlier, In (f, earlier ++ [x]) (file_under f x d).
Proof.
  unfold file_under.
  destruct (Z.eqb_spec (indexOf (keys d) f) (-1)) as [E|E].
  - exists []. apply in_or_app. right. now left.
  - apply push_ends.
    destruct (in_dec (list_eq_dec Ascii.ascii_dec) f (keys d)) as [H|H];
      [assumption|].
    apply indexOf_absent in H. contradiction.
Qed.




(* ===================================================================== *)
(** * One line of output *)
(* ===================================================================== *)

Lemma lt_irrefl (n : number) : lt n n = false.
Proof. destruct n; cbn [lt]; try reflexivity. apply Z.ltb_irrefl. Qed.

Lemma lt_at_least (lo : Z) (n : number) :
  at_least lo n -> lt n (Fin lo) = false.
Proof.
  destruct n; cbn [at_least lt]; try tauto. intros H. now apply Z.ltb_ge.
Qed.

Lemma lt_MAX_VALUE_zero : lt MAX_VALUE (Fin 0) = false.
Proof. vm_compute. reflexivity. Qed.

(** The range of a line and a column: a line below zero is refused, then a
    column below zero; otherwise the range runs from the column to
    [Number.MAX_VALUE], the two in their order. *)
Lemma new_Range_line (line column : number) :
  new_Range line column line MAX_VALUE
  = if lt line (Fin 0) then Throw line_must_be_non_negative
    else if lt column (Fin 0) then Throw character_must_be_non_negative
         else Ok (range_at line column).
Proof.
  unfold new_Range, Position_check, isBefore, range_at.
  destruct (lt line (Fin 0)); [reflexivity|].
  destruct (lt column (Fin 0)); [reflexivity|].
  rewrite lt_MAX_VALUE_zero, lt_irrefl.
  destruct (lt column MAX_VALUE); reflexivity.
Qed.

(** The line of a match array of [re]: below zero when the tool said 0. *)
Lemma line_of_re_array (rex : list (option str)) :
  re_array rex ->
  exists g4,
    get rex 4 = Some g4 /\ digits g4
    /\ (decimal g4 = 0 \/ 1 <= decimal g4)
    /\ (decimal g4 = 0 -> lt (line_of rex) (Fin 0) = true)
    /\ (1 <= decimal g4 ->
        at_least 0 (line_of rex) /\ lt (line_of rex) (Fin 0) = false).
Proof.
  intros [whole g1 g3 g4 g6 o2 o5 _ _ _ Hd4 _ _].
  exists g4. split; [reflexivity|]. split; [assumption|].
  destruct Hd4 as [_ Hd4]. unfold line_of. cbn [get nth].
  pose proof (decimal_nonneg Hd4) as H0.
  destruct (Number_digits_line Hd4) as [Hpos Hzero].
  split; [lia|]. split.
  - intros E. now rewrite (Hzero E).
  - intros E. split; [now apply Hpos|]. apply lt_at_least. now apply Hpos.
Qed.

(** The column of a match array of [re]: 0 without group 5, and below zero
    when the tool said 0. *)
Lemma column_of_re_array (rex : list (option str)) :
  re_array rex ->
  (get rex 5 = None -> column_of (get rex 5) = Fin 0)
  /\ (forall g5,
         get rex 5 = Some g5 ->
         digits g5
         /\ (decimal g5 = 0 \/ 1 <= decimal g5)
         /\ (decimal g5 = 0 -> lt (column_of (get rex 5)) (Fin 0) = true)
         /\ (1 <= decimal g5 ->
             at_least 0 (column_of (get rex 5))
             /\ lt (column_of (get rex 5)) (Fin 0) = false)).
Proof.
  intros [whole g1 g3 g4 g6 o2 o5 _ _ _ _ Ho5 _]. cbn [get nth]. split.
  - now intros ->.
  - intros g5 ->. destruct (Ho5 g5 eq_refl) as [Hne Hd5].
    split; [now split|]. unfold column_of.
    pose proof (decimal_nonneg Hd5) as H0.
    destruct (Number_digits_line Hd5) as [Hpos Hzero].
    split; [lia|]. split.
    + intros E. now rewrite (Hzero E).
    + intros E. split; [now apply Hpos|]. apply lt_at_least. now apply Hpos.
Qed.

(** A range that is made has a line and a column from 0 on. *)
Lemma range_of_Ok (rex : list (option str)) (rg : Range) :
  re_array rex ->
  range_of rex = Ok rg ->
  rg = range_at (line_of rex) (column_of (get rex 5))
  /\ at_least 0 (line_of rex)
  /\ at_least 0 (column_of (get rex 5))
  /\ (exists g4, get rex 4 = Some g4 /\ 1 <= decimal g4)
  /\ (forall g5, get rex 5 = Some g5 -> 1 <= decimal g5).
Proof.
  intros Ha. unfold range_of. rewrite new_Range_line.
  destruct (line_of_re_array Ha) as (g4 & Hg4 & _ & [Z4|P4] & Hz4 & Hp4).
  { rewrite (Hz4 Z4). discriminate. }
  destruct (Hp4 P4) as [Hline ->].
  destruct (column_of_re_array Ha) as [Hnone Hsome].
  destruct (get rex 5) as [g5|] eqn:E5.
  - destruct (Hsome g5 eq_refl) as (_ & [Z5|P5] & Hz5 & Hp5).
    { rewrite (Hz5 Z5). discriminate. }
    destruct (Hp5 P5) as [Hcol ->]. intros [= <-].
    repeat split; try assumption.
    + now exists g4.
    + now intros g [= <-].
  - rewrite (Hnone eq_refl). cbn [lt Z.ltb Z.compare]. intros [= <-].
    repeat split; try assumption.
    + cbn [at_least]. lia.
    + now exists g4.
    + discriminate.
Qed.

(** When no range is made. *)
Lemma range_of_Throw (rex : list (option str)) (e : Exception) :
  re_array rex ->
  range_of rex = Throw e ->
  (exists g4, get rex 4 = Some g4 /\ decimal g4 = 0)
  \/ (exists g5, get rex 5 = Some g5 /\ decimal g5 = 0).
Proof.
  intros Ha. unfold range_of. rewrite new_Range_line.
  destruct (line_of_re_array Ha) as (g4 & Hg4 & _ & [Z4|P4] & Hz4 & Hp4).
  { intros _. left. now exists g4. }
  destruct (Hp4 P4) as [Hline ->].
  destruct (column_of_re_array Ha) as [Hnone Hsome].
  destruct (get rex 5) as [g5|] eqn:E5.
  - destruct (Hsome g5 eq_refl) as (_ & [Z5|P5] & Hz5 & Hp5).
    { intros _. right. now exists g5. }
    destruct (Hp5 P5) as [Hcol ->]. discriminate.
  - rewrite (Hnone eq_refl). cbn [lt Z.ltb Z.compare]. discriminate.
Qed.

Section LineFacts.

Context {host : Host}.
Variable this : VerilatorLinter.t.

(** A line the pattern finds nothing in changes nothing. *)
Lemma lint_line_unmatched (line : str) (st : Diagnostics * Logger.t) :
  exec re line = None -> lint_line this st line = (st, None).
Proof.
  intros H. destruct st as [d l]. unfold lint_line, search.
  now rewrite H.
Qed.

(** On a line the pattern matches, the callback runs its body on the match
    array, and logs nothing. *)
Lemma lint_line_matched (line : str) (m : MatchResult)
      (d : Diagnostics) (l : Logger.t) :
  exec re line = Some m ->
  lint_line this (d, l) line
  = match diagnose this (array m) d with
    | Ok d' => ((d', l), None)
    | Throw e => ((d, l), Some e)
    end.
Proof.
  intros H. destruct (exec_re_groups _ H) as [Hi Ha].
  unfold lint_line, search, match_. rewrite H. cbn [option_map].
  destruct (Z.eqb_spec (index m) (-1)) as [E|_]; [lia|]. cbn [negb].
  destruct Ha as [whole g1 g3 g4 g6 o2 o5 [rest ->] _ _ _ _ _].
  reflexivity.
Qed.

(** The body of the callback on a match array of [re]: the line number is a
    number, so the diagnostic is filed unless a call throws. *)
Lemma diagnose_re_array (rex : list (option str)) (d : Diagnostics) :
  re_array rex ->
  diagnose this rex d
  = match entry_of this rex with
    | Ok e => Ok (file_under (fst e) (snd e) d)
    | Throw e => Throw e
    end.
Proof.
  intros [whole g1 g3 g4 g6 o2 o5 _ _ _ [_ Hd4] Ho5 _].
  unfold diagnose, entry_of, resolve, range_of, line_of, diagnostic_of,
    code_of, column_of.
  cbn [get nth the].
  destruct (Number_digits_at_least Hd4) as [_ Hline].
  rewrite (at_least_not_NaN _ _ Hline). cbn [negb].
  match goal with
  | |- match ?s with Ok _ => _ | Throw _ => _ end = _ =>
      destruct s as [filename|e]; [|reflexivity]
  end.
  destruct o5 as [g5|].
  - destruct (Ho5 g5 eq_refl) as [_ Hd5].
    destruct (Number_digits_at_least Hd5) as [_ Hcol].
    rewrite (at_least_not_NaN _ _ Hcol).
    now destruct (new_Range _ _ _ _).
  - cbn [Number sub isNaN].
    now destruct (new_Range _ _ _ _).
Qed.

(** One turn of the loop, by what the line stands for. *)
Lemma lint_line_entry (line : str) (d : Diagnostics) (l : Logger.t) :
  lint_line this (d, l) line
  = match line_entry this line with
    | Some (Ok e) => ((file_under (fst e) (snd e) d, l), None)
    | Some (Throw e) => ((d, l), Some e)
    | None => ((d, l), None)
    end.
Proof.
  unfold line_entry. destruct (exec re line) as [m|] eqn:E.
  - rewrite (@lint_line_matched line m d l E).
    destruct (exec_re_groups _ E) as [_ Ha].
    rewrite (diagnose_re_array d Ha).
    now destruct (entry_of this (array m)).
  - now apply lint_line_unmatched.
Qed.

(** Every line leaves the log as it was: the [failed to parse] entry is
    written on no line. *)
Lemma lint_line_log (line : str) (st : Diagnostics * Logger.t) :
  snd (fst (lint_line this st line)) = snd st.
Proof.
  destruct st as [d l]. rewrite lint_line_entry.
  now destruct (line_entry this line) as [[e|e]|].
Qed.

(** A line that throws leaves everything as it was. *)
Lemma lint_line_thrown (line : str) (st st' : Diagnostics * Logger.t)
      (e : Exception) :
  lint_line this st line = (st', Some e) -> st' = st.
Proof.
  destruct st as [d l]. rewrite lint_line_entry.
  destruct (line_entry this line) as [[x|x]|]; congruence.
Qed.

(** What a matched line stands for, by its groups. *)
Lemma entry_of_Ok (rex : list (option str)) (f : str) (x : Diagnostic) :
  re_array rex ->
  entry_of this rex = Ok (f, x) ->
  resolve this (the (get rex 3)) = Ok f
  /\ range_of rex = Ok (range x)
  /\ x = diagnostic_of rex (range x).
Proof.
  intros Ha. unfold entry_of.
  destruct (resolve this (the (get rex 3))) as [f'|e]; [|discriminate].
  destruct (range_of rex) as [rg|e]; [|discriminate].
  intros [= <- <-]. repeat split.
Qed.

End LineFacts.

(* ===================================================================== *)
(** * The callback, line by line *)
(* ===================================================================== *)

(** C1, as the claim has it, fails: a line without a percent sign leaves
    the log as it was, with no entry for the line. *)
Lemma C1_no_log_entry_for_a_line_without_percent :
  ~ (exists entry,
        snd (fst (@lint_line example_host (example_linter true) ([], [])
                             (lit "hello world")))
        = [entry]).
Proof. intros [entry H]. vm_compute in H. discriminate H. Qed.

(** C1, amended: a line without a percent sign adds no diagnostic, writes
    nothing to the log and throws nothing.  (The [failed to parse] entry is
    written on no line at all, [lint_line_log]: its call stands under the
    test that the search found a match, on the path where the match then
    gave nothing.) *)
Theorem C1_line_without_percent_is_silent
        (host : Host) (this : VerilatorLinter.t)
        (line : str) (st : Diagnostics * Logger.t) :
  ~ In "%"%char line ->
  lint_line this st line = (st, None).
Proof.
  intros H. apply lint_line_unmatched.
  unfold exec. now apply exec_from_no_percent.
Qed.

Lemma C1_line_without_percent_is_silent_witness :
  @lint_line example_host (example_linter true) ([], []) (lit "hello world")
  = (([], []), None).
Proof.
  apply (@C1_line_without_percent_is_silent example_host).
  cbv. intuition discriminate.
Defined.

(** C10, as the claim has it, fails: a line about line 0 matches the
    pattern and contributes no diagnostic, the range of line -1 being
    refused. *)
Lemma C10_line_zero_adds_no_diagnostic :
  exec re (lit "%Error: a.v:0: x") <> None
  /\ @lint_line example_host (example_linter true) ([], [])
                (lit "%Error: a.v:0: x")
     = (([], []), Some line_must_be_non_negative).
Proof. split; [vm_compute; discriminate | vm_compute; reflexivity]. Qed.

(** C10, amended: on every line the pattern matches, group 4 is a non-empty
    string of digits, and neither its number nor the line number made of it
    is NaN.  The callback then adds exactly one diagnostic or throws and
    leaves everything as it was; it adds one exactly when the file name
    resolves, the line is at least 1 and the column, if any, is at least
    1. *)
Theorem C10_matched_line_adds_one_diagnostic_or_throws
        (host : Host) (this : VerilatorLinter.t)
        (line : str) (m : MatchResult) :
  exec re line = Some m ->
  exists g3 g4,
    get (array m) 3 = Some g3
    /\ get (array m) 4 = Some g4
    /\ digits g4
    /\ isNaN (Number (Some g4)) = false
    /\ isNaN (sub (Number (Some g4)) (Fin 1)) = false
    /\ forall st,
        (forall st',
            lint_line this st line = (st', None) ->
            snd st' = snd st /\ count (fst st') = S (count (fst st)))
        /\ (forall st' e, lint_line this st line = (st', Some e) -> st' = st)
        /\ (snd (lint_line this st line) = None
            <-> ((exists filename, resolve this g3 = Ok filename)
                 /\ 1 <= decimal g4
                 /\ (forall g5, get (array m) 5 = Some g5 -> 1 <= decimal g5))).
Proof.
  intros H. destruct (exec_re_groups _ H) as [_ Ha].
  assert (Hg3 : exists g3, get (array m) 3 = Some g3).
  { destruct Ha. now eexists. }
  destruct Hg3 as [g3 Hg3].
  destruct (line_of_re_array Ha) as (g4 & Hg4 & Hd4 & Hcase4 & Hz4 & Hp4).
  exists g3, g4. split; [assumption|]. split; [assumption|].
  split; [assumption|].
  destruct (Number_digits_at_least (proj2 Hd4)) as [H0 H1].
  split; [exact (at_least_not_NaN _ _ H0)|].
  split; [exact (at_least_not_NaN _ _ H1)|].
  intros [d l]. rewrite lint_line_entry. unfold line_entry. rewrite H.
  destruct (entry_of this (array m)) as [[f x]|e] eqn:E.
  - split; [|split].
    + intros st' [= <-]. cbn [fst snd]. split; [reflexivity|].
      apply count_file_under.
    + intros st' e [=].
    + cbn [snd]. split; [intros _ | reflexivity].
      destruct (entry_of_Ok this Ha E) as (Hf & Hr & _).
      rewrite Hg3 in Hf. cbn [the] in Hf.
      destruct (range_of_Ok Ha Hr) as (_ & _ & _ & (g4' & Hg4' & Hpos) & H5).
      rewrite Hg4 in Hg4'. injection Hg4' as <-.
      split; [now exists f|]. now split.
  - split; [|split].
    + intros st' [=].
    + now intros st' e' [= <- _].
    + cbn [snd]. split; [discriminate|].
      intros ([f Hf] & Hpos & H5). exfalso.
      unfold entry_of in E. rewrite Hg3 in E. cbn [the] in E.
      rewrite Hf in E.
      destruct (range_of (array m)) as [rg|e'] eqn:Er; [discriminate|].
      destruct (range_of_Throw Ha Er) as [(g & Hg & Z0)|(g & Hg & Z0)].
      * rewrite Hg4 in Hg. injection Hg as <-. lia.
      * specialize (H5 g Hg). lia.
Qed.

Lemma C10_matched_line_adds_one_diagnostic_or_throws_witness :
  exists st',
    @lint_line example_host (example_linter false) ([], [])
               (lit "%Warning-WIDTH: foo.sv:5:3: bit width mismatch")
    = (st', None)
    /\ count (fst st') = 1%nat.
Proof.
  edestruct (@C10_matched_line_adds_one_diagnostic_or_throws
               example_host (example_linter false)
               (lit "%Warning-WIDTH: foo.sv:5:3: bit width mismatch"))
    as (g3 & g4 & _ & _ & _ & _ & _ & H).
  - vm_compute. reflexivity.
  - destruct (H ([], [])) as (Hone & _ & _).
    eexists. split; [vm_compute; reflexivity|].
    apply Hone. vm_compute. reflexivity.
Defined.

(** C9: on a matched line the callback files the diagnostic under the
    captured path itself when the linter runs at the file's location;
    otherwise under the captured path itself when it is absolute, and under
    the workspace root joined with it when it is relative.  With no
    workspace root to join a relative path with, the callback throws and
    files nothing. *)
Theorem C9_file_path_resolution
        (host : Host) (this : VerilatorLinter.t)
        (line : str) (st : Diagnostics * Logger.t) (m : MatchResult) :
  exec re line = Some m ->
  exists path,
    get (array m) 3 = Some path
    /\ (forall st',
           lint_line this st line = (st', None) ->
           exists filename diagnostic earlier,
             fst st' = file_under filename diagnostic (fst st)
             /\ In (filename, earlier ++ [diagnostic]) (fst st')
             /\ (runAtFileLocation this = true -> filename = path)
             /\ (runAtFileLocation this = false ->
                 path_isAbsolute path = true -> filename = path)
             /\ (runAtFileLocation this = false ->
                 path_isAbsolute path = false ->
                 exists root,
                   rootPath = Some root /\ filename = path_join root path))
    /\ (runAtFileLocation this = false ->
        path_isAbsolute path = false ->
        rootPath = None ->
        lint_line this st line = (st, Some path_must_be_a_string)).
Proof.
  intros H. destruct (exec_re_groups _ H) as [_ Ha].
  assert (Hg3 : exists g3, get (array m) 3 = Some g3).
  { destruct Ha. now eexists. }
  destruct Hg3 as [path Hg3]. exists path. split; [assumption|].
  destruct st as [d l]. rewrite lint_line_entry. unfold line_entry.
  rewrite H. split.
  - intros st'.
    destruct (entry_of this (array m)) as [[f x]|e] eqn:E; [|discriminate].
    intros [= <-]. cbn [fst snd].
    destruct (entry_of_Ok this Ha E) as (Hf & _ & _).
    rewrite Hg3 in Hf. cbn [the] in Hf.
    destruct (file_under_ends f x d) as [earlier Hin].
    exists f, x, earlier. split; [reflexivity|]. split; [assumption|].
    unfold resolve in Hf. split; [|split].
    + intros R. rewrite R in Hf. congruence.
    + intros R A. rewrite R, A in Hf. congruence.
    + intros R A. rewrite R, A in Hf.
      destruct rootPath as [root|]; [|discriminate].
      exists root. split; [reflexivity | congruence].
  - intros R A N. unfold entry_of, resolve.
    rewrite Hg3. cbn [the]. now rewrite R, A, N.
Qed.

Lemma C9_file_path_resolution_witness :
  exists st' diagnostic,
    @lint_line example_host (example_linter false) ([], [])
               (lit "%Warning-WIDTH: foo.sv:5:3: bit width mismatch")
    = (st', None)
    /\ fst st' = [(lit "/proj/foo.sv", [diagnostic])].
Proof.
  edestruct (@C9_file_path_resolution
               example_host (example_linter false)
               (lit "%Warning-WIDTH: foo.sv:5:3: bit width mismatch")
               ([], []))
    as (path & Hp & Hfiled & _).
  - vm_compute. reflexivity.
  - edestruct Hfiled
      as (filename & diagnostic & earlier & Hf & _ & _ & _ & Hrel).
    + vm_compute. reflexivity.
    + eexists _, diagnostic. split; [vm_compute; reflexivity|].
      rewrite Hf. vm_compute in Hp. injection Hp as <-.
      destruct (Hrel eq_refl eq_refl) as (root & Hroot & ->).
      vm_compute in Hroot. injection Hroot as <-. reflexivity.
Defined.




(* ===================================================================== *)
(** * Severity *)
(* ===================================================================== *)

(** C6: a keyword that starts with [Error] is an error, one that starts
    with [Warning] is a warning, and every other keyword is information. *)
Theorem C6_getSeverity (severityString : str) :
  (forall rest, severityString = lit "Error" ++ rest ->
                getSeverity severityString = Error)
  /\ (forall rest, severityString = lit "Warning" ++ rest ->
                   getSeverity severityString = Warning)
  /\ ((forall rest, severityString <> lit "Error" ++ rest) ->
      (forall rest, severityString <> lit "Warning" ++ rest) ->
      getSeverity severityString = Information).
Proof.
  unfold getSeverity. split; [|split].
  - intros rest H.
    replace (startsWith severityString (lit "Error")) with true;
      [reflexivity|].
    symmetry. apply startsWith_prefix. now exists rest.
  - intros rest H.
    replace (startsWith severityString (lit "Warning")) with true;
      [now rewrite H|].
    symmetry. apply startsWith_prefix. now exists rest.
  - intros HE HW.
    destruct (startsWith severityString (lit "Error")) eqn:E.
    + apply startsWith_prefix in E as [rest E]. now apply HE in E.
    + destruct (startsWith severityString (lit "Warning")) eqn:W;
        [|reflexivity].
      apply startsWith_prefix in W as [rest W]. now apply HW in W.
Qed.

Lemma C6_getSeverity_witness :
  getSeverity (lit "Error") = Error
  /\ getSeverity (lit "Warning") = Warning
  /\ getSeverity (lit "Info") = Information.
Proof.
  split; [|split].
  - apply (proj1 (C6_getSeverity (lit "Error")) []). reflexivity.
  - apply (proj1 (proj2 (C6_getSeverity (lit "Warning"))) []). reflexivity.
  - apply (proj2 (proj2 (C6_getSeverity (lit "Info"))));
      intros rest H; discriminate H.
Defined.

(* ===================================================================== *)
(** * The whole callback *)
(* ===================================================================== *)

Section CallbackFacts.

Context {host : Host}.
Variable this : VerilatorLinter.t.

(** The loop by what the lines stand for: without a throw it files the
    diagnostics of the lines, one after the other; the first throw ends it.
    Either way the log stays as it was. *)
Lemma forEach_completed (lines : list str) :
  forall (d : Diagnostics) (l : Logger.t),
    first_throw this lines = None ->
    forEach this lines (d, l)
    = ((fold_left (fun d e => file_under (fst e) (snd e) d)
                  (entries this lines) d, l), None).
Proof.
  induction lines as [|line lines IH]; intros d l; cbn [forEach first_throw].
  - reflexivity.
  - rewrite lint_line_entry. unfold entries. cbn [flat_map].
    destruct (line_entry this line) as [[e|e]|]; [| discriminate |];
      intros H; rewrite (IH _ _ H); reflexivity.
Qed.

Lemma forEach_thrown (lines : list str) :
  forall (d : Diagnostics) (l : Logger.t) (e : Exception),
    first_throw this lines = Some e ->
    exists d', forEach this lines (d, l) = ((d', l), Some e).
Proof.
  induction lines as [|line lines IH]; intros d l e; cbn [forEach first_throw].
  - discriminate.
  - rewrite lint_line_entry.
    destruct (line_entry this line) as [[x|x]|].
    + apply IH.
    + intros [= <-]. now exists d.
    + apply IH.
Qed.

(** What the callback leaves behind when no line throws: the collection
    holds the diagnostics of this run alone, and the log has grown by the
    error, when there is one, and by the closing entry. *)
Lemma on_exec_completed (r : ExecResult) (w : World) :
  first_throw this (split_lines (stderr r)) = None ->
  on_exec this r w
  = ({| diagnosticCollection :=
          publish (fold_left (fun d e => file_under (fst e) (snd e) d)
                             (entries this (split_lines (stderr r))) [])
                  [];
        logger :=
          log match exec_error r with
              | Some e => log (logger w) (error_message e) (Some error)
              | None => logger w
              end
              (length_property
                 (fold_left (fun d e => file_under (fst e) (snd e) d)
                            (entries this (split_lines (stderr r))) [])
                 ++ lit " errors/warnings returned")
              None |},
     None).
Proof.
  intros H. unfold on_exec, parse. now rewrite (forEach_completed _ _ _ H).
Qed.

(** What it leaves behind when a line throws: the collection as it was,
    and the log grown by the error only, when there is one. *)
Lemma on_exec_thrown (r : ExecResult) (w : World) (e : Exception) :
  first_throw this (split_lines (stderr r)) = Some e ->
  on_exec this r w
  = ({| diagnosticCollection := diagnosticCollection w;
        logger :=
          match exec_error r with
          | Some e => log (logger w) (error_message e) (Some error)
          | None => logger w
          end |},
     Some e).
Proof.
  intros H. unfold on_exec, parse. cbv zeta.
  match goal with
  | |- context [forEach this _ (?d0, ?l0)] =>
      destruct (forEach_thrown _ d0 l0 H) as [d' Hd']
  end.
  unfold Diagnostics in Hd'. rewrite Hd'.
  reflexivity.
Qed.

(** How the callback ends is decided by the text of stderr. *)
Lemma on_exec_ends (r : ExecResult) (w : World) :
  snd (on_exec this r w) = first_throw this (split_lines (stderr r)).
Proof.
  destruct (first_throw this (split_lines (stderr r))) as [e|] eqn:E.
  - now rewrite (on_exec_thrown _ _ E).
  - now rewrite (on_exec_completed _ _ E).
Qed.



Lemma set_members (uri : Uri) (xs : list Diagnostic)
      (dc : DiagnosticCollection) :
  forall u ds, In (u, ds) (set uri xs dc) -> (u, ds) = (uri, xs) \/ In (u, ds) dc.
Proof.
  induction dc as [|[u0 old] dc IH]; intros u ds; simpl.
  - intros [H|[]]. now left.
  - destruct (str_eqb u0 uri) eqn:E.
    + apply str_eqb_eq in E. subst u0.
      intros [H|H]; [left; congruence | right; now right].
    + intros [H|H]; [right; now left|].
      destruct (IH _ _ H) as [H'|H']; [now left | right; now right].
Qed.

(** Publishing adds arrays of the callback's object only, each under the
    resource of its file name. *)
Lemma publish_members (d : Diagnostics) :
  forall (dc : DiagnosticCollection) u ds,
    In (u, ds) (publish d dc) ->
    In (u, ds) dc \/ exists f, u = Uri_file f /\ In (f, ds) d.
Proof.
  unfold publish. induction d as [|[f xs] d IH]; intros dc u ds;
    cbn [fold_left fst snd].
  - now left.
  - intros H. apply IH in H as [H|(g & Hu & Hg)].
    + apply set_members in H as [H|H]; [|now left].
      right. exists f. injection H as -> ->. split; [reflexivity | now left].
    + right. exists g. split; [assumption | now right].
Qed.


End CallbackFacts.

(** C4 (scenario A): with the linter run at the file's location, the
    output [%Error: /tmp/foo.sv:10: syntax error] publishes one diagnostic,
    under the resource of [/tmp/foo.sv]: an error with code [verilator],
    line 9, column 0 and message [syntax error]; and the callback runs to
    its end. *)
Theorem C4_scenario_A
        (host : Host) (binDir args : str) (wsl : bool)
        (error : option ExecError) (out : str) (w : World) :
  diagnosticCollection
    (fst (on_exec {| verilatorPath := binDir; verilatorArgs := args;
                     runAtFileLocation := true; useWSL := wsl |}
                  {| exec_error := error; stdout := out;
                     stderr := lit "%Error: /tmp/foo.sv:10: syntax error" |}
                  w))
  = [ (Uri_file (lit "/tmp/foo.sv"),
       [ {| severity := Error;
            range := {| startLine := Fin 9; startCharacter := Fin 0;
                        endLine := Fin 9; endCharacter := MAX_VALUE |};
            message := lit "syntax error";
            code := lit "verilator";
            source := lit "verilator" |} ]) ]
  /\ snd (on_exec {| verilatorPath := binDir; verilatorArgs := args;
                     runAtFileLocation := true; useWSL := wsl |}
                  {| exec_error := error; stdout := out;
                     stderr := lit "%Error: /tmp/foo.sv:10: syntax error" |}
                  w)
     = None.
Proof.
  rewrite on_exec_completed by (vm_compute; reflexivity).
  split; vm_compute; reflexivity.
Qed.

(** C5 (scenario B): on a host with POSIX paths and the workspace at
    [/proj], with the linter run at the workspace root, the output
    [%Warning-WIDTH: foo.sv:5:3: bit width mismatch] publishes one
    diagnostic, under the resource of [/proj/foo.sv]: a warning with code
    [WIDTH], line 4, column 2 and message [bit width mismatch]; and the
    callback runs to its end. *)
Theorem C5_scenario_B
        (uri : str -> str) (helper : str -> option str)
        (binDir args : str) (wsl : bool)
        (error : option ExecError) (out : str) (w : World) :
  diagnosticCollection
    (fst (@on_exec (posix_host uri helper (Some (lit "/proj")))
                   {| verilatorPath := binDir; verilatorArgs := args;
                      runAtFileLocation := false; useWSL := wsl |}
                   {| exec_error := error; stdout := out;
                      stderr :=
                        lit "%Warning-WIDTH: foo.sv:5:3: bit width mismatch" |}
                   w))
  = [ (uri (lit "/proj/foo.sv"),
       [ {| severity := Warning;
            range := {| startLine := Fin 4; startCharacter := Fin 2;
                        endLine := Fin 4; endCharacter := MAX_VALUE |};
            message := lit "bit width mismatch";
            code := lit "WIDTH";
            source := lit "verilator" |} ]) ]
  /\ snd (@on_exec (posix_host uri helper (Some (lit "/proj")))
                   {| verilatorPath := binDir; verilatorArgs := args;
                      runAtFileLocation := false; useWSL := wsl |}
                   {| exec_error := error; stdout := out;
                      stderr :=
                        lit "%Warning-WIDTH: foo.sv:5:3: bit width mismatch" |}
                   w)
     = None.
Proof.
  rewrite on_exec_completed by (vm_compute; reflexivity).
  split; vm_compute; reflexivity.
Qed.






(** * The command *)
(* ===================================================================== *)


(** C8, as the claim has it, fails: for a Verilog document the language
    flag is empty, and its slot leaves two spaces in a row. *)
Lemma C8_empty_flag_doubles_the_separator :
  ~ (forall inv,
        snd (@prepare example_host (example_linter true)
                      {| fsPath := lit "/proj/top.v";
                         languageId := lit "verilog" |} [])
        = Some inv ->
        doubled_separator (invocation_command inv) = false).
Proof.
  intros H.
  specialize (H {| invocation_command :=
                     lit "verilator  --lint-only -I/proj  /proj/top.v";
                   invocation_cwd := Some (lit "/proj") |}).
  assert (E : true = false); [|discriminate E].
  apply H. vm_compute. reflexivity.
Qed.

(** C8, amended: the command is the six components in order, with one
    space between each two: the executable under the configured directory,
    the language flag, [--lint-only], [-I] with the document's folder, the
    configured arguments, the document's path.  The flag is [-sv] for a
    SystemVerilog document and empty otherwise; an empty component keeps its
    slot, so the spaces around it stand side by side.  The executable's name
    and the form of the two paths follow the platform. *)
Theorem C8_command
        (host : Host) (this : VerilatorLinter.t) (doc : TextDocument)
        (l l' : Logger.t) (inv : LintInvocation) :
  prepare this doc l = (l', Some inv) ->
  exists svArgs verilator docFolder docUri,
    invocation_command inv
    = path_join (verilatorPath this) verilator ++ lit " "
        ++ svArgs ++ lit " "
        ++ lit "--lint-only" ++ lit " "
        ++ (lit "-I" ++ docFolder) ++ lit " "
        ++ verilatorArgs this ++ lit " "
        ++ docUri
    /\ (languageId doc = lit "systemverilog" -> svArgs = lit "-sv")
    /\ (languageId doc <> lit "systemverilog" -> svArgs = lit "")
    /\ (isWindows = false ->
        verilator = lit "verilator"
        /\ docFolder
           = substr (fsPath doc) 0 (lastIndexOf (fsPath doc) "/"%char)
        /\ docUri = fsPath doc)
    /\ (isWindows = true -> useWSL this = false ->
        verilator = lit "verilator_bin.exe"
        /\ docFolder
           = backslash_to_slash
               (substr (fsPath doc) 0 (lastIndexOf (fsPath doc) "\"%char))
        /\ docUri = backslash_to_slash (fsPath doc))
    /\ (isWindows = true -> useWSL this = true ->
        verilator = lit "wsl verilator"
        /\ (exists text,
               execSync (lit "wsl wslpath '"
                           ++ substr (fsPath doc) 0
                                     (lastIndexOf (fsPath doc) "\"%char)
                           ++ lit "'") = Some text
               /\ docFolder = strip_newlines text)
        /\ (exists text,
               execSync (lit "wsl wslpath '" ++ fsPath doc ++ lit "'")
               = Some text
               /\ docUri = strip_newlines text)).
Proof.
  intros H.
  exists (if str_eqb (languageId doc) (lit "systemverilog")
          then lit "-sv" else lit "").
  assert (Hsv : (languageId doc = lit "systemverilog" ->
                 (if str_eqb (languageId doc) (lit "systemverilog")
                  then lit "-sv" else lit "") = lit "-sv")
                /\ (languageId doc <> lit "systemverilog" ->
                    (if str_eqb (languageId doc) (lit "systemverilog")
                     then lit "-sv" else lit "") = lit "")).
  { split; intros E.
    - apply str_eqb_eq in E. now rewrite E.
    - apply str_eqb_neq in E. now rewrite E. }
  destruct Hsv as [Hsv Hnot].
  unfold prepare in H.
  destruct isWindows eqn:Ewin; [destruct (useWSL this) eqn:Ewsl|].
  - destruct (execSync (lit "wsl wslpath '" ++ fsPath doc ++ lit "'"))
      as [text1|] eqn:E1; [|discriminate].
    destruct (execSync _) as [text2|] eqn:E2 in H; [|discriminate].
    injection H as _ <-.
    exists (lit "wsl verilator"), (strip_newlines text2),
      (strip_newlines text1).
    split; [reflexivity|]. split; [exact Hsv|]. split; [exact Hnot|].
    split; [discriminate|]. split; [discriminate|].
    intros _ _. split; [reflexivity|].
    split; [now exists text2 | now exists text1].
  - injection H as _ <-.
    exists (lit "verilator_bin.exe"),
      (backslash_to_slash
         (substr (fsPath doc) 0 (lastIndexOf (fsPath doc) "\"%char))),
      (backslash_to_slash (fsPath doc)).
    split; [reflexivity|]. split; [exact Hsv|]. split; [exact Hnot|].
    split; [discriminate|]. split; [now intros _ _|]. discriminate.
  - injection H as _ <-.
    exists (lit "verilator"),
      (substr (fsPath doc) 0 (lastIndexOf (fsPath doc) "/"%char)),
      (fsPath doc).
    split; [reflexivity|]. split; [exact Hsv|]. split; [exact Hnot|].
    split; [now intros _|]. split; discriminate.
Qed.

Lemma C8_command_witness :
  exists inv,
    snd (@prepare example_host (example_linter true)
                  {| fsPath := lit "/proj/top.sv";
                     languageId := lit "systemverilog" |} [])
    = Some inv
    /\ invocation_command inv
       = lit "verilator -sv --lint-only -I/proj  /proj/top.sv".
Proof.
  edestruct (@C8_command example_host (example_linter true)
                         {| fsPath := lit "/proj/top.sv";
                            languageId := lit "systemverilog" |} [])
    as (svArgs & verilator & docFolder & docUri
        & Hcmd & Hsv & _ & Hposix & _).
  - vm_compute. reflexivity.
  - eexists. split; [vm_compute; reflexivity|].
    rewrite Hcmd, (Hsv eq_refl).
    destruct (Hposix eq_refl) as (-> & -> & ->).
    vm_compute. reflexivity.
Defined.

(* ===================================================================== *)
(** * Splitting a line into terms *)
(* ===================================================================== *)

Lemma trimStart_suffix (s : str) :
  exists ws, s = ws ++ trimStart s /\ Forall (fun c => is_space c = true) ws.
Proof.
  induction s as [|c s IH]; simpl.
  - now exists [].
  - destruct (is_space c) eqn:E.
    + destruct IH as (ws & Hs & Hws). exists (c :: ws). split.
      * simpl. now rewrite <- Hs.
      * now constructor.
    + now exists [].
Qed.

Lemma trimStart_head (s : str) (c : ascii) (rest : str) :
  trimStart s = c :: rest -> is_space c = false.
Proof.
  induction s as [|x s IH]; simpl; [discriminate|].
  destruct (is_space x) eqn:E; [assumption|].
  intros [= -> _]. exact E.
Qed.

Lemma trimStart_fixed (s : str) :
  (forall c rest, s = c :: rest -> is_space c = false) -> trimStart s = s.
Proof.
  destruct s as [|c s]; intros H; simpl; [reflexivity|].
  now rewrite (H c s eq_refl).
Qed.

Lemma trimEnd_prefix (s : str) :
  exists ws, s = trimEnd s ++ ws /\ Forall (fun c => is_space c = true) ws.
Proof.
  unfold trimEnd. destruct (trimStart_suffix (rev s)) as (ws & Hs & Hws).
  exists (rev ws). split.
  - rewrite <- rev_app_distr, <- Hs. now rewrite rev_involutive.
  - now apply Forall_rev.
Qed.

Lemma trimEnd_last (s front : str) (c : ascii) :
  trimEnd s = front ++ [c] -> is_space c = false.
Proof.
  unfold trimEnd. intros H.
  apply (f_equal (@rev ascii)) in H.
  rewrite rev_involutive, rev_app_distr in H. simpl in H.
  exact (@trimStart_head _ _ _ H).
Qed.

Lemma trimEnd_fixed (s : str) :
  (forall front c, s = front ++ [c] -> is_space c = false) -> trimEnd s = s.
Proof.
  intros H. unfold trimEnd. rewrite trimStart_fixed.
  - apply rev_involutive.
  - intros c rest E. apply (H (rev rest) c).
    rewrite <- (rev_involutive s), E. reflexivity.
Qed.

(** [trim] gives a trimmed string, made of characters of its argument, and
    leaves a trimmed string as it is. *)
Lemma trim_trimmed (s : str) : trimmed (trim s).
Proof.
  unfold trim. split.
  - intros c rest E.
    destruct (trimEnd_prefix (trimStart s)) as (ws & Hs & _).
    rewrite E in Hs. simpl in Hs. exact (@trimStart_head _ _ _ Hs).
  - intros front c E. exact (@trimEnd_last _ _ _ E).
Qed.

Lemma trim_incl (s : str) (c : ascii) : In c (trim s) -> In c s.
Proof.
  unfold trim. intros H.
  destruct (trimEnd_prefix (trimStart s)) as (ws1 & H1 & _).
  destruct (trimStart_suffix s) as (ws2 & H2 & _).
  rewrite H2, H1. apply in_or_app. right. apply in_or_app. now left.
Qed.

Lemma trim_fixed (t : str) : trimmed t -> trim t = t.
Proof.
  intros [Hhead Hlast]. unfold trim.
  rewrite (@trimStart_fixed _ Hhead). now apply trimEnd_fixed.
Qed.

Lemma split_acc_pieces (sep : ascii) (s : str) :
  forall cur piece,
    ~ In sep cur -> In piece (split_acc sep cur s) -> ~ In sep piece.
Proof.
  induction s as [|c s IH]; intros cur piece Hcur; simpl.
  - intros [<-|[]]. exact Hcur.
  - destruct (Ascii.eqb c sep) eqn:E.
    + intros [<-|H]; [exact Hcur|]. apply (IH [] piece); auto.
    + apply IH. intros H. apply in_app_or in H as [H|[H|[]]]; [auto|].
      subst c. now rewrite Ascii.eqb_refl in E.
Qed.

Lemma split_acc_app (sep : ascii) (a b : str) :
  forall cur,
    split_acc sep cur (a ++ sep :: b)
    = split_acc sep cur a ++ split_acc sep [] b.
Proof.
  induction a as [|c a IH]; intros cur; simpl.
  - now rewrite Ascii.eqb_refl.
  - destruct (Ascii.eqb c sep); [|apply IH].
    simpl. now rewrite IH.
Qed.

Lemma split_acc_whole (sep : ascii) (s : str) :
  ~ In sep s -> forall cur, split_acc sep cur s = [cur ++ s].
Proof.
  induction s as [|c s IH]; intros Hs cur; simpl.
  - now rewrite app_nil_r.
  - destruct (Ascii.eqb c sep) eqn:E.
    + apply Ascii.eqb_eq in E. subst c. exfalso. apply Hs. now left.
    + rewrite IH; [now rewrite <- app_assoc|].
      intros H. apply Hs. now right.
Qed.

Lemma splitTerms_from_app (x y : list str) :
  splitTerms_from (x ++ y) = splitTerms_from x ++ splitTerms_from y.
Proof.
  induction x as [|term x IH]; cbn [splitTerms_from app]; [reflexivity|].
  destruct (str_eqb term (lit " ")); [exact IH | now rewrite IH].
Qed.

Lemma splitTerms_from_members (terms : list str) (t : str) :
  In t (splitTerms_from terms) ->
  exists term, In term terms /\ t = trim term.
Proof.
  induction terms as [|term terms IH]; cbn [splitTerms_from In];
    [intros []|].
  destruct (str_eqb term (lit " ")).
  - intros H. destruct (IH H) as (u & Hu & ->). exists u. auto.
  - intros [<-|H]; [exists term; auto|].
    destruct (IH H) as (u & Hu & ->). exists u. auto.
Qed.

(** Every term [splitTerms] returns is free of colons and trimmed. *)
Theorem splitTerms_terms_are_clean (line t : str) :
  In t (splitTerms line) ->
  ~ In ":"%char t /\ trimmed t.
Proof.
  unfold splitTerms, split. intros H.
  apply splitTerms_from_members in H as (term & Hterm & ->).
  split; [|apply trim_trimmed].
  intros Hc. apply trim_incl in Hc.
  revert Hc. apply (@split_acc_pieces ":"%char line [] term); auto.
Qed.

Lemma splitTerms_terms_are_clean_witness :
  ~ In ":"%char (lit "syntax error") /\ trimmed (lit "syntax error").
Proof.
  apply (@splitTerms_terms_are_clean
           (lit "%Error: foo.v:10:  syntax error ") (lit "syntax error")).
  vm_compute. intuition.
Defined.

(** Splitting goes colon by colon: the terms of [a:b] are the terms of [a]
    followed by the terms of [b]. *)
Theorem splitTerms_at_colon (a b : str) :
  splitTerms (a ++ ":"%char :: b) = splitTerms a ++ splitTerms b.
Proof.
  unfold splitTerms, split.
  now rewrite split_acc_app, splitTerms_from_app.
Qed.

(** A term [splitTerms] returned comes back alone when split again. *)
Theorem splitTerms_term_is_stable (line t : str) :
  In t (splitTerms line) -> splitTerms t = [t].
Proof.
  intros H. pose proof H as Hin.
  unfold splitTerms, split in Hin.
  apply splitTerms_from_members in Hin as (term & Hterm & Et).
  assert (Hcolon : ~ In ":"%char t).
  { subst t. intros Hc. apply trim_incl in Hc. revert Hc.
    apply (@split_acc_pieces ":"%char line [] term); auto. }
  assert (Htrim : trimmed t) by (subst t; apply trim_trimmed).
  unfold splitTerms, split. rewrite (@split_acc_whole _ _ Hcolon). cbn [app].
  cbn [splitTerms_from].
  destruct (str_eqb t (lit " ")) eqn:E.
  - apply str_eqb_eq in E. destruct Htrim as [Hhead _].
    specialize (Hhead " "%char [] E). discriminate Hhead.
  - now rewrite (@trim_fixed _ Htrim).
Qed.

Lemma splitTerms_term_is_stable_witness :
  splitTerms (lit "foo.v") = [lit "foo.v"].
Proof.
  apply (@splitTerms_term_is_stable (lit "%Error: foo.v:10:  syntax error ")).
  vm_compute. intuition.
Defined.

(* ===================================================================== *)
(** * Splitting the output into lines *)
(* ===================================================================== *)

(** Induction two characters at a time, as [split_lines_acc] recurses. *)
Lemma str_pair_ind (P : str -> Prop) :
  P [] ->
  (forall c, P [c]) ->
  (forall c d s, P s -> P (d :: s) -> P (c :: d :: s)) ->
  forall s, P s.
Proof.
  intros H0 H1 H2 s.
  assert (H : P s /\ forall c, P (c :: s)); [|apply H].
  induction s as [|d s [IHs IHc]]; split; auto.
Qed.

Lemma join_cons (sep x : str) (rest : list str) :
  rest <> [] -> join sep (x :: rest) = x ++ sep ++ join sep rest.
Proof. destruct rest; [congruence | reflexivity]. Qed.

Lemma split_lines_acc_two (cur : str) (c d : ascii) (s : str) :
  split_lines_acc cur (c :: d :: s)
  = if Ascii.eqb c LF then cur :: split_lines_acc [] (d :: s)
    else if Ascii.eqb c CR && Ascii.eqb d LF
         then cur :: split_lines_acc [] s
         else split_lines_acc (cur ++ [c]) (d :: s).
Proof. reflexivity. Qed.

Lemma split_lines_acc_nonempty (s cur : str) : split_lines_acc cur s <> [].
Proof.
  revert cur. induction s as [| c | c d s IHs IHd] using str_pair_ind;
    intros cur; cbn [split_lines_acc]; try discriminate.
  - destruct (Ascii.eqb c LF); discriminate.
  - destruct (Ascii.eqb c LF); [discriminate|].
    destruct (Ascii.eqb c CR && Ascii.eqb d LF); [discriminate | apply IHd].
Qed.

Lemma split_lines_acc_no_line_feed (s : str) :
  forall cur,
    ~ In LF cur ->
    Forall (fun line => ~ In LF line) (split_lines_acc cur s).
Proof.
  induction s as [| c | c d s IHs IHd] using str_pair_ind;
    intros cur Hcur; cbn [split_lines_acc].
  - now repeat constructor.
  - destruct (Ascii.eqb c LF) eqn:E.
    + repeat constructor; auto.
    + repeat constructor. intros H.
      apply in_app_or in H as [H|[H|[]]]; [auto|].
      subst c. now rewrite Ascii.eqb_refl in E.
  - destruct (Ascii.eqb c LF) eqn:E.
    + constructor; [assumption|]. apply IHd. intros [].
    + destruct (Ascii.eqb c CR && Ascii.eqb d LF).
      * constructor; [assumption|]. apply IHs. intros [].
      * apply IHd. intros H.
        apply in_app_or in H as [H|[H|[]]]; [auto|].
        subst c. now rewrite Ascii.eqb_refl in E.
Qed.

Lemma split_lines_acc_rejoin (s : str) :
  ~ In CR s ->
  forall cur, join [LF] (split_lines_acc cur s) = cur ++ s.
Proof.
  induction s as [| c | c d s IHs IHd] using str_pair_ind;
    intros Hcr cur.
  - simpl. now rewrite app_nil_r.
  - cbn [split_lines_acc]. destruct (Ascii.eqb c LF) eqn:E.
    + apply Ascii.eqb_eq in E. subst c. reflexivity.
    + reflexivity.
  - rewrite split_lines_acc_two.
    assert (Hc : Ascii.eqb c CR = false).
    { apply Ascii.eqb_neq. intros ->. apply Hcr. now left. }
    assert (Hrest : ~ In CR (d :: s)) by (intros H; apply Hcr; now right).
    rewrite Hc. cbn [andb].
    destruct (Ascii.eqb c LF) eqn:E.
    + apply Ascii.eqb_eq in E. subst c.
      rewrite join_cons by apply split_lines_acc_nonempty.
      now rewrite (IHd Hrest).
    + rewrite (IHd Hrest). now rewrite <- app_assoc.
Qed.

(** A stretch without line endings stays in the line being read. *)
Lemma split_lines_acc_plain (p rest : str) :
  ~ In LF p -> ~ In CR p ->
  forall cur, split_lines_acc cur (p ++ rest) = split_lines_acc (cur ++ p) rest.
Proof.
  induction p as [|c p IH]; intros Hlf Hcr cur; cbn [app].
  - now rewrite app_nil_r.
  - assert (Ec : Ascii.eqb c LF = false).
    { apply Ascii.eqb_neq. intros ->. apply Hlf. now left. }
    assert (Er : Ascii.eqb c CR = false).
    { apply Ascii.eqb_neq. intros ->. apply Hcr. now left. }
    cbn [split_lines_acc]. rewrite Ec, Er. cbn [andb].
    assert (Hgo : split_lines_acc (cur ++ [c]) (p ++ rest)
                  = split_lines_acc (cur ++ c :: p) rest).
    { rewrite IH.
      - now rewrite <- app_assoc.
      - intros H. apply Hlf. now right.
      - intros H. apply Hcr. now right. }
    destruct (p ++ rest); exact Hgo.
Qed.

(** The lines the callback reads hold no line feed, and for a text without
    carriage returns, putting a line feed between them gives the text
    back. *)
Theorem split_lines_loses_only_line_endings (text : str) :
  Forall (fun line => ~ In LF line) (split_lines text)
  /\ (~ In CR text -> join [LF] (split_lines text) = text).
Proof.
  split.
  - apply split_lines_acc_no_line_feed. intros [].
  - intros H. exact (@split_lines_acc_rejoin text H []).
Qed.

Lemma split_lines_loses_only_line_endings_witness :
  join [LF] (split_lines (lit "a" ++ [LF] ++ [LF] ++ lit "b"))
  = lit "a" ++ [LF] ++ [LF] ++ lit "b".
Proof.
  apply (proj2 (split_lines_loses_only_line_endings
                  (lit "a" ++ [LF] ++ [LF] ++ lit "b"))).
  cbv. intuition discriminate.
Defined.

(* ===================================================================== *)
(** * The parts of a matched line *)
(* ===================================================================== *)

Lemma match_here_re_parts (s : str) (a : list (option str)) :
  match_here re s = Some a ->
  exists whole rest, s = whole ++ rest /\ re_parts whole a.
Proof.
  unfold match_here. intros H.
  destruct (matcher re s no_captures (fun s' c => Some (s', c)))
    as [[s' c]|] eqn:E; [|discriminate].
  injection H as <-.
  apply MatcherFacts.matcher_reads in E as (s1 & c1 & Hr & Hk).
  injection Hk as -> ->.
  unfold re in Hr.
  apply MatcherFacts.reads_seq in Hr as (t1 & c1 & H1 & Hr).
  apply MatcherFacts.reads_char in H1 as [-> ->].
  (* group 1 *)
  apply MatcherFacts.reads_seq in Hr as (t2 & c2 & H2 & Hr).
  apply MatcherFacts.reads_group_plus in H2 as (keyword & -> & Hk1 & Hk2 & ->).
  (* group 2, optional *)
  apply MatcherFacts.reads_seq in Hr as (t3 & c3 & H3 & Hr).
  assert (Htag : exists tag,
             t2 = tag_text tag ++ t3
             /\ c3 = match tag with
                     | Some t => capture 2 ("-"%char :: t)
                                         (capture 1 keyword no_captures)
                     | None => capture 1 keyword no_captures
                     end
             /\ (forall t, tag = Some t ->
                           t <> []
                           /\ all (OneOf [("A", "Z"); ("0", "9"); ("_", "_")]%char)
                                  t)).
  { apply MatcherFacts.reads_opt in H3 as [H3|[-> ->]].
    - apply MatcherFacts.reads_group in H3 as (g2 & c' & E2 & H3 & ->).
      apply MatcherFacts.reads_seq in H3 as (u & c'' & Hd & Hp).
      apply MatcherFacts.reads_char in Hd as [Hd ->].
      apply MatcherFacts.reads_plus in Hp as (t & -> & Ht1 & Ht2 & ->).
      change ("-"%char :: t ++ t3) with (("-"%char :: t) ++ t3) in Hd.
      apply app_inv_tail in Hd. subst g2.
      exists (Some t). split; [exact E2|]. split; [reflexivity|].
      intros ? [= <-]. now split.
    - exists None. split; [reflexivity|]. split; [reflexivity|]. discriminate. }
  destruct Htag as (tag & -> & -> & Htag). clear H3.
  (* colon, white space, group 3 *)
  apply MatcherFacts.reads_seq in Hr as (t4 & c4 & H4 & Hr).
  apply MatcherFacts.reads_char in H4 as [-> ->].
  apply MatcherFacts.reads_seq in Hr as (t5 & c5 & H5 & Hr).
  apply MatcherFacts.reads_star in H5 as (sp1 & -> & Hsp1 & ->).
  apply MatcherFacts.reads_seq in Hr as (t6 & c6 & H6 & Hr).
  apply MatcherFacts.reads_group in H6 as (g3 & c' & -> & H6 & ->).
  assert (Hpath : exists stem ext,
             g3 = stem ++ "."%char :: ext /\ c' = match tag with
                     | Some t => capture 2 ("-"%char :: t)
                                         (capture 1 keyword no_captures)
                     | None => capture 1 keyword no_captures
                     end
             /\ all Any stem /\ ext <> []
             /\ all (OneOf [("a", "z"); ("A", "Z")]%char) ext).
  { apply MatcherFacts.reads_seq in H6 as (u1 & d1 & Ha & H6).
    apply MatcherFacts.reads_star in Ha as (stem & Ea & Hstem & ->).
    apply MatcherFacts.reads_seq in H6 as (u2 & d2 & Hb & H6).
    apply MatcherFacts.reads_char in Hb as [-> ->].
    apply MatcherFacts.reads_plus in H6 as (ext & -> & He1 & He2 & ->).
    exists stem, ext. split; [|auto].
    apply app_inv_tail with t6. rewrite Ea.
    now rewrite <- app_assoc. }
  destruct Hpath as (stem & ext & -> & -> & Hstem & Hext1 & Hext2). clear H6.
  (* colon, group 4, colon *)
  apply MatcherFacts.reads_seq in Hr as (t7 & c7 & H7 & Hr).
  apply MatcherFacts.reads_char in H7 as [-> ->].
  apply MatcherFacts.reads_seq in Hr as (t8 & c8 & H8 & Hr).
  apply MatcherFacts.reads_group_plus in H8 as (number & -> & Hn1 & Hn2 & ->).
  apply MatcherFacts.reads_seq in Hr as (t9 & c9 & H9 & Hr).
  apply MatcherFacts.reads_char in H9 as [-> ->].
  (* group 5, optional *)
  apply MatcherFacts.reads_seq in Hr as (t10 & c10 & H10 & Hr).
  match type of H10 with
  | reads _ _ _ ?base _ => set (c8 := base) in *
  end.
  assert (Hcolumn : exists column,
             t9 = column_text column ++ t10
             /\ c10 = match column with
                      | Some (_, g5) => capture 5 g5 c8
                      | None => c8
                      end
             /\ (forall sp g5, column = Some (sp, g5) ->
                               all Space sp /\ digits g5)).
  { apply MatcherFacts.reads_opt in H10 as [H10|[-> ->]].
    - apply MatcherFacts.reads_seq in H10 as (u1 & d1 & Ha & H10).
      apply MatcherFacts.reads_star in Ha as (sp & -> & Hsp & ->).
      apply MatcherFacts.reads_seq in H10 as (u2 & d2 & Hb & H10).
      apply MatcherFacts.reads_group_plus in Hb as (g5 & -> & Hg1 & Hg2 & ->).
      apply MatcherFacts.reads_char in H10 as [-> ->].
      exists (Some (sp, g5)). split; [|split; [reflexivity|]].
      + cbn [column_text]. now rewrite <- !app_assoc.
      + intros ? ? [= <- <-]. split; [assumption | now split].
    - exists None. split; [reflexivity|]. split; [reflexivity|]. discriminate. }
  destruct Hcolumn as (column & -> & -> & Hcolumn). clear H10.
  (* white space, group 6 *)
  apply MatcherFacts.reads_seq in Hr as (t11 & c11 & H11 & Hr).
  apply MatcherFacts.reads_star in H11 as (sp2 & -> & Hsp2 & ->).
  apply MatcherFacts.reads_group in Hr as (g6 & c' & -> & H12 & ->).
  assert (Hmessage : exists sp3 text,
             g6 = sp3 ++ text
             /\ c' = match column with
                     | Some (_, g5) => capture 5 g5 c8
                     | None => c8
                     end
             /\ all Space sp3 /\ text <> [] /\ all Any text).
  { apply MatcherFacts.reads_seq in H12 as (u1 & d1 & Ha & H12).
    apply MatcherFacts.reads_star in Ha as (sp3 & Ea & Hsp3 & ->).
    apply MatcherFacts.reads_plus in H12 as (text & -> & Ht1 & Ht2 & ->).
    exists sp3, text. split; [|auto].
    apply app_inv_tail with s'. rewrite Ea. now rewrite <- app_assoc. }
  destruct Hmessage as (sp3 & text & -> & -> & Hsp3 & Htext1 & Htext2).
  clear H12.
  (* the matched text and the array *)
  set (whole := "%"%char :: keyword ++ tag_text tag ++ ":"%char :: sp1
                  ++ (stem ++ "."%char :: ext) ++ ":"%char :: number
                  ++ ":"%char :: column_text column ++ sp2 ++ sp3 ++ text).
  assert (Ewhole : "%"%char
                   :: keyword ++ tag_text tag ++ ":"%char
                   :: sp1 ++ (stem ++ "."%char :: ext) ++ ":"%char
                   :: number ++ ":"%char
                   :: column_text column ++ sp2 ++ (sp3 ++ text) ++ s'
                   = whole ++ s').
  { subst whole. cbn [app].
    repeat (progress (rewrite <- ?app_assoc; cbn [app])). reflexivity. }
  rewrite Ewhole. exists whole, s'. split; [reflexivity|].
  rewrite MatcherFacts.consumed_app.
  destruct tag as [t|]; destruct column as [[sp g5]|];
    [ apply (@re_parts_intro whole keyword (Some t) sp1 stem ext number
                             (Some (sp, g5)) sp2 sp3 text)
    | apply (@re_parts_intro whole keyword (Some t) sp1 stem ext number
                             None sp2 sp3 text)
    | apply (@re_parts_intro whole keyword None sp1 stem ext number
                             (Some (sp, g5)) sp2 sp3 text)
    | apply (@re_parts_intro whole keyword None sp1 stem ext number
                             None sp2 sp3 text) ];
    auto; now split.
Qed.

Lemma exec_from_re_parts (s : str) :
  forall i m,
    exec_from re i s = Some m ->
    exists before whole after,
      s = before ++ whole ++ after
      /\ index m = i + Z.of_nat (length before)
      /\ (forall k, (k < length before)%nat ->
                    match_here re (skipn k s) = None)
      /\ re_parts whole (array m).
Proof.
  induction s as [|x s IH]; intros i m; cbn [exec_from];
    destruct (match_here re _) as [a|] eqn:E; intros H;
    try discriminate.
  - injection H as <-. apply match_here_re_parts in E as (whole & rest & Es & Hp).
    exists [], whole, rest. cbn [app length index array].
    repeat split; [assumption | lia | intros k Hk; lia | assumption].
  - apply IH in H as (before & whole & after & -> & Hi & Hleft & Hp).
    exists (x :: before), whole, after. cbn [app length].
    repeat split; [lia | | assumption].
    intros [|k] Hk; [exact E|]. cbn [skipn]. apply Hleft. lia.
Qed.

Lemma exec_re_parts (line : str) (m : MatchResult) :
  exec re line = Some m ->
  exists before whole after,
    line = before ++ whole ++ after /\ re_parts whole (array m).
Proof.
  intros H. apply exec_from_re_parts in H
    as (before & whole & after & E & _ & _ & Hp).
  now exists before, whole, after.
Qed.

(** What the pattern finds in a line is the first place where it matches,
    and the match array takes the matched text apart: the groups and the
    separators between them, in order, make up the matched text. *)
Theorem match_takes_the_line_apart (line : str) (m : MatchResult) :
  exec re line = Some m ->
  exists before whole after,
    line = before ++ whole ++ after
    /\ index m = Z.of_nat (length before)
    /\ (forall k, (k < length before)%nat ->
                  match_here re (skipn k line) = None)
    /\ re_parts whole (array m).
Proof.
  intros H. apply exec_from_re_parts in H
    as (before & whole & after & E & Hi & Hleft & Hp).
  exists before, whole, after. repeat split; auto.
Qed.

Lemma match_takes_the_line_apart_witness :
  exists before whole after,
    lit "- %Warning-WIDTH: foo.sv:5:3: bit width mismatch"
    = before ++ whole ++ after
    /\ length before = 2%nat
    /\ re_parts whole
                [ Some (lit "%Warning-WIDTH: foo.sv:5:3: bit width mismatch");
                  Some (lit "Warning"); Some (lit "-WIDTH");
                  Some (lit "foo.sv"); Some (lit "5"); Some (lit "3");
                  Some (lit "bit width mismatch") ].
Proof.
  edestruct (@match_takes_the_line_apart
               (lit "- %Warning-WIDTH: foo.sv:5:3: bit width mismatch"))
    as (before & whole & after & E & Hi & _ & Hp).
  - vm_compute. reflexivity.
  - exists before, whole, after. split; [exact E|]. split.
    + cbn [index] in Hi. lia.
    + exact Hp.
Defined.

(** The characters and the colons a matched text is sure to hold. *)
Lemma re_parts_contents (whole : str) (a : list (option str)) :
  re_parts whole a ->
  In "."%char whole
  /\ (exists c, In c whole /\ is_digit c = true)
  /\ (3 <= count_occ Ascii.ascii_dec whole ":"%char)%nat.
Proof.
  intros [keyword tag sp1 stem ext number column sp2 sp3 text
            _ _ _ _ _ _ _ [Hn1 Hn2] _ _ _ _ _ ->].
  split; [|split].
  - right. apply in_or_app. right. apply in_or_app. right. right.
    apply in_or_app. right. apply in_or_app. left.
    apply in_or_app. right. now left.
  - destruct number as [|d number]; [congruence|].
    exists d. split; [|now inversion Hn2].
    right. apply in_or_app. right. apply in_or_app. right. right.
    apply in_or_app. right. apply in_or_app. right. right. now left.
  - cbn [count_occ].
    destruct (Ascii.ascii_dec "%"%char ":"%char) as [E|_]; [discriminate E|].
    repeat (rewrite ?count_occ_app; cbn [count_occ]).
    destruct (Ascii.ascii_dec ":"%char ":"%char) as [_|N]; [lia | congruence].
Qed.

(** A line without a dot, without a digit or with fewer than three colons
    is passed over: no diagnostic, no log entry, nothing thrown. *)
Theorem line_short_of_the_pattern_is_passed_over
        (host : Host) (this : VerilatorLinter.t)
        (line : str) (st : Diagnostics * Logger.t) :
  (~ In "."%char line -> lint_line this st line = (st, None))
  /\ ((forall c, In c line -> is_digit c = false) ->
      lint_line this st line = (st, None))
  /\ ((count_occ Ascii.ascii_dec line ":"%char < 3)%nat ->
      lint_line this st line = (st, None)).
Proof.
  destruct (exec re line) as [m|] eqn:E.
  - apply exec_re_parts in E as (before & whole & after & -> & Hp).
    apply re_parts_contents in Hp as (Hdot & (c & Hc & Hdigit) & Hcolons).
    split; [|split]; intros H; exfalso.
    + apply H. apply in_or_app. right. apply in_or_app. now left.
    + rewrite H in Hdigit; [discriminate|].
      apply in_or_app. right. apply in_or_app. now left.
    + rewrite !count_occ_app in H. lia.
  - repeat split; intros _; now apply lint_line_unmatched.
Qed.

Lemma line_short_of_the_pattern_is_passed_over_witness :
  @lint_line example_host (example_linter true) ([], [])
             (lit "%Error: Makefile:10: syntax error") = (([], []), None)
  /\ @lint_line example_host (example_linter true) ([], [])
                (lit "%Error: top.v: no such file") = (([], []), None)
  /\ @lint_line example_host (example_linter true) ([], [])
                (lit "%Error: top.v:3") = (([], []), None).
Proof.
  split; [|split].
  - apply (proj1 (@line_short_of_the_pattern_is_passed_over
                    example_host (example_linter true)
                    (lit "%Error: Makefile:10: syntax error") ([], []))).
    cbv. intuition discriminate.
  - apply (proj1 (proj2 (@line_short_of_the_pattern_is_passed_over
                           example_host (example_linter true)
                           (lit "%Error: top.v: no such file") ([], [])))).
    intros c Hc. cbv in Hc.
    repeat (destruct Hc as [<-|Hc]; [reflexivity|]). destruct Hc.
  - apply (proj2 (proj2 (@line_short_of_the_pattern_is_passed_over
                           example_host (example_linter true)
                           (lit "%Error: top.v:3") ([], [])))).
    vm_compute. reflexivity.
Defined.

(* ===================================================================== *)
(** * What the callback publishes *)
(* ===================================================================== *)

Lemma existsb_str_eqb (x : str) (seen : list str) :
  existsb (str_eqb x) seen = true <-> In x seen.
Proof.
  rewrite existsb_exists. split.
  - intros (y & Hy & E). apply str_eqb_eq in E. now subst y.
  - intros H. exists x. split; [assumption | apply str_eqb_refl].
Qed.

Lemma keys_push (f : str) (x : Diagnostic) (d : Diagnostics) :
  keys (push f x d) = keys d.
Proof.
  induction d as [|[g xs] d IH]; simpl; [reflexivity|].
  destruct (str_eqb g f); simpl; [reflexivity | now rewrite IH].
Qed.

Lemma keys_file_under (f : str) (x : Diagnostic) (d : Diagnostics) :
  keys (file_under f x d)
  = if existsb (str_eqb f) (keys d) then keys d else keys d ++ [f].
Proof.
  unfold file_under.
  destruct (Z.eqb_spec (indexOf (keys d) f) (-1)) as [E|E].
  - apply indexOf_absent in E.
    destruct (existsb (str_eqb f) (keys d)) eqn:X.
    + apply existsb_str_eqb in X. contradiction.
    + unfold keys. now rewrite map_app.
  - destruct (existsb (str_eqb f) (keys d)) eqn:X.
    + apply keys_push.
    + exfalso. apply E. apply indexOf_absent. intros H.
      apply existsb_str_eqb in H. congruence.
Qed.

Lemma NoDup_keys_file_under (f : str) (x : Diagnostic) (d : Diagnostics) :
  NoDup (keys d) -> NoDup (keys (file_under f x d)).
Proof.
  intros H. rewrite keys_file_under.
  destruct (existsb (str_eqb f) (keys d)) eqn:X; [assumption|].
  apply NoDup_app; [assumption | repeat constructor; intros [] |].
  intros k Hk [<-|[]].
  apply existsb_str_eqb in Hk. congruence.
Qed.

Lemma diagnostics_for_app (f : str) (d1 d2 : Diagnostics) :
  diagnostics_for f (d1 ++ d2) = diagnostics_for f d1 ++ diagnostics_for f d2.
Proof. apply flat_map_app. Qed.

Lemma diagnostics_for_absent (f : str) (d : Diagnostics) :
  ~ In f (keys d) -> diagnostics_for f d = [].
Proof.
  induction d as [|[g xs] d IH]; intros H; simpl; [reflexivity|].
  destruct (str_eqb g f) eqn:E.
  - apply str_eqb_eq in E. subst g. exfalso. apply H. now left.
  - apply IH. intros Hin. apply H. now right.
Qed.

Lemma diagnostics_for_push (f g : str) (x : Diagnostic) (d : Diagnostics) :
  NoDup (keys d) -> In g (keys d) ->
  diagnostics_for f (push g x d)
  = diagnostics_for f d ++ (if str_eqb g f then [x] else []).
Proof.
  induction d as [|[k xs] d IH]; intros Hnd Hin; [destruct Hin|].
  cbn [keys map fst] in Hnd, Hin. inversion Hnd as [|? ? Hk Hd]; subst.
  cbn [push]. destruct (str_eqb k g) eqn:E.
  - apply str_eqb_eq in E. subst k.
    unfold diagnostics_for. cbn [flat_map fst snd].
    fold (diagnostics_for f d).
    destruct (str_eqb g f) eqn:F.
    + apply str_eqb_eq in F. subst f.
      rewrite (@diagnostics_for_absent g d Hk). now rewrite !app_nil_r.
    + now rewrite app_nil_r.
  - apply str_eqb_neq in E. destruct Hin as [Hin|Hin]; [congruence|].
    unfold diagnostics_for. cbn [flat_map fst snd].
    fold (diagnostics_for f d). fold (diagnostics_for f (push g x d)).
    rewrite (IH Hd Hin). now rewrite app_assoc.
Qed.

Lemma diagnostics_for_file_under (f g : str) (x : Diagnostic)
      (d : Diagnostics) :
  NoDup (keys d) ->
  diagnostics_for f (file_under g x d)
  = diagnostics_for f d ++ (if str_eqb g f then [x] else []).
Proof.
  intros Hnd. unfold file_under.
  destruct (Z.eqb_spec (indexOf (keys d) g) (-1)) as [E|E].
  - rewrite diagnostics_for_app. unfold diagnostics_for at 2.
    cbn [flat_map fst snd]. now rewrite app_nil_r.
  - apply diagnostics_for_push; [assumption|].
    destruct (in_dec (list_eq_dec Ascii.ascii_dec) g (keys d)) as [H|H];
      [assumption|].
    apply indexOf_absent in H. contradiction.
Qed.

(** Filing entries one after the other: the keys stay distinct, come in
    the order the names first occur, and each file gets its diagnostics in
    the order of the entries. *)
Lemma file_all_under (es : list (str * Diagnostic)) :
  forall d : Diagnostics,
    NoDup (keys d) ->
    let d' := fold_left (fun d e => file_under (fst e) (snd e) d) es d in
    NoDup (keys d')
    /\ keys d' = keys d ++ first_occurrences (keys d) (map fst es)
    /\ (forall f, diagnostics_for f d'
                  = diagnostics_for f d
                      ++ map snd (filter (fun e => str_eqb (fst e) f) es))
    /\ count d' = (count d + length es)%nat.
Proof.
  induction es as [|[g x] es IH]; intros d Hnd; cbn zeta; cbn [fold_left].
  - repeat split; [assumption | | |].
    + simpl. now rewrite app_nil_r.
    + intros f. simpl. now rewrite app_nil_r.
    + simpl. lia.
  - cbn [fst snd].
    destruct (IH (file_under g x d) (@NoDup_keys_file_under g x d Hnd))
      as (H1 & H2 & H3 & H4).
    split; [exact H1|]. split; [|split].
    + rewrite H2, keys_file_under. cbn [map fst first_occurrences].
      destruct (existsb (str_eqb g) (keys d)); [reflexivity|].
      now rewrite <- app_assoc.
    + intros f. rewrite H3, (@diagnostics_for_file_under f g x d Hnd).
      cbn [filter fst]. rewrite <- app_assoc.
      destruct (str_eqb g f); reflexivity.
    + rewrite H4, count_file_under. simpl. lia.
Qed.

Lemma set_absent (uri : Uri) (xs : list Diagnostic)
      (dc : DiagnosticCollection) :
  ~ In uri (map fst dc) -> set uri xs dc = dc ++ [(uri, xs)].
Proof.
  induction dc as [|[u old] dc IH]; intros H; simpl; [reflexivity|].
  destruct (str_eqb u uri) eqn:E.
  - apply str_eqb_eq in E. subst u. exfalso. apply H. now left.
  - rewrite IH; [reflexivity|]. intros Hin. apply H. now right.
Qed.

Lemma first_occurrences_incl (names : list str) :
  forall seen k, In k (first_occurrences seen names) -> In k names.
Proof.
  induction names as [|x names IH]; intros seen k; cbn [first_occurrences];
    [intros []|].
  destruct (existsb (str_eqb x) seen).
  - intros H. right. exact (IH _ _ H).
  - intros [<-|H]; [now left|]. right. exact (IH _ _ H).
Qed.


Lemma str_eqb_sym (a b : str) : str_eqb a b = str_eqb b a.
Proof.
  destruct (str_eqb a b) eqn:E; destruct (str_eqb b a) eqn:F;
    try reflexivity.
  - apply str_eqb_eq in E. subst b. rewrite str_eqb_refl in F. discriminate F.
  - apply str_eqb_eq in F. subst b. rewrite str_eqb_refl in E. discriminate E.
Qed.

Lemma find_app (A : Type) (p : A -> bool) (l1 l2 : list A) :
  find p (l1 ++ l2)
  = match find p l1 with
    | Some x => Some x
    | None => find p l2
    end.
Proof.
  induction l1 as [|x l1 IH]; cbn [app find]; [reflexivity|].
  now destruct (p x).
Qed.

Lemma keys_set (uri : Uri) (xs : list Diagnostic) (dc : DiagnosticCollection) :
  map fst (set uri xs dc)
  = if existsb (str_eqb uri) (map fst dc) then map fst dc
    else map fst dc ++ [uri].
Proof.
  induction dc as [|[u old] dc IH]; cbn [set map fst existsb app];
    [reflexivity|].
  rewrite (str_eqb_sym uri u).
  destruct (str_eqb u uri) eqn:E; cbn [orb map fst]; [reflexivity|].
  rewrite IH. now destruct (existsb (str_eqb uri) (map fst dc)).
Qed.

Lemma NoDup_set (uri : Uri) (xs : list Diagnostic) (dc : DiagnosticCollection) :
  NoDup (map fst dc) -> NoDup (map fst (set uri xs dc)).
Proof.
  intros H. rewrite keys_set.
  destruct (existsb (str_eqb uri) (map fst dc)) eqn:X; [assumption|].
  apply NoDup_app; [assumption | repeat constructor; intros [] |].
  intros k Hk [<-|[]].
  apply existsb_str_eqb in Hk. congruence.
Qed.

(** What a resource holds after [set]: the new array for the resource set,
    and what it held for any other. *)
Lemma diagnostics_for_set (uri v : Uri) (xs : list Diagnostic)
      (dc : DiagnosticCollection) :
  NoDup (map fst dc) ->
  diagnostics_for v (set uri xs dc)
  = if str_eqb uri v then xs else diagnostics_for v dc.
Proof.
  induction dc as [|[u old] dc IH]; intros Hnd.
  - cbn [set diagnostics_for flat_map fst snd]. rewrite app_nil_r.
    reflexivity.
  - cbn [map fst] in Hnd. inversion Hnd as [|? ? Hu Hd]; subst.
    cbn [set]. destruct (str_eqb u uri) eqn:E.
    + apply str_eqb_eq in E. subst u.
      unfold diagnostics_for. cbn [flat_map fst snd].
      fold (diagnostics_for v dc).
      destruct (str_eqb uri v) eqn:F; [|reflexivity].
      apply str_eqb_eq in F. subst v.
      now rewrite (@diagnostics_for_absent uri dc Hu), app_nil_r.
    + unfold diagnostics_for. cbn [flat_map fst snd].
      fold (diagnostics_for v dc). fold (diagnostics_for v (set uri xs dc)).
      rewrite (IH Hd).
      destruct (str_eqb uri v) eqn:F; [|reflexivity].
      apply str_eqb_eq in F. subst v. now rewrite E.
Qed.

Lemma count_set (uri : Uri) (xs : list Diagnostic) (dc : DiagnosticCollection) :
  (count (set uri xs dc) <= count dc + length xs)%nat
  /\ (~ In uri (map fst dc) ->
      count (set uri xs dc) = (count dc + length xs)%nat).
Proof.
  unfold count. induction dc as [|[u old] dc IH]; cbn [set].
  - simpl. split; [lia|]. intros _. lia.
  - destruct (str_eqb u uri) eqn:E.
    + simpl. split; [lia|]. intros H. exfalso. apply H. left.
      now apply str_eqb_eq.
    + destruct IH as [Hle Heq]. simpl. split; [lia|].
      intros H. rewrite Heq; [lia|]. intros Hin. apply H. now right.
Qed.

Section CollectionFacts.

Context {host : Host}.
Variable this : VerilatorLinter.t.


(** What a resource holds once the callback's object is published: the
    array of the last key that names the resource. *)
Lemma diagnostics_for_publish (d : Diagnostics) :
  forall (dc : DiagnosticCollection) (uri : Uri),
    NoDup (map fst dc) ->
    diagnostics_for uri (publish d dc)
    = match find (fun e => str_eqb (Uri_file (fst e)) uri) (rev d) with
      | Some e => snd e
      | None => diagnostics_for uri dc
      end.
Proof.
  unfold publish. induction d as [|[f xs] d IH]; intros dc uri Hnd;
    cbn [fold_left fst snd rev]; [reflexivity|].
  rewrite (IH _ uri (@NoDup_set (Uri_file f) xs dc Hnd)).
  rewrite find_app.
  destruct (find (fun e => str_eqb (Uri_file (fst e)) uri) (rev d));
    [reflexivity|].
  cbn [find fst snd]. rewrite (@diagnostics_for_set (Uri_file f) uri xs dc Hnd).
  now destruct (str_eqb (Uri_file f) uri).
Qed.

Lemma count_publish (d : Diagnostics) :
  forall dc : DiagnosticCollection,
    (count (publish d dc) <= count dc + count d)%nat.
Proof.
  unfold publish. induction d as [|[f xs] d IH]; intros dc;
    cbn [fold_left fst snd].
  - unfold count at 3. simpl. lia.
  - specialize (IH (set (Uri_file f) xs dc)).
    pose proof (proj1 (count_set (Uri_file f) xs dc)) as Hset.
    replace (count ((f, xs) :: d)) with (length xs + count d)%nat
      by reflexivity.
    lia.
Qed.

(** Keys that name distinct resources are published as they are. *)
Lemma publish_distinct (d : Diagnostics) :
  forall dc : DiagnosticCollection,
    NoDup (map fst dc ++ map Uri_file (keys d)) ->
    publish d dc = dc ++ map (fun e => (Uri_file (fst e), snd e)) d.
Proof.
  unfold publish. induction d as [|[f xs] d IH]; intros dc Hnd;
    cbn [fold_left fst snd map].
  - now rewrite app_nil_r.
  - cbn [keys map fst] in Hnd. rewrite set_absent.
    + rewrite IH.
      * now rewrite <- app_assoc.
      * rewrite map_app. cbn [map fst]. rewrite <- app_assoc. exact Hnd.
    + intros Hin. apply NoDup_remove_2 in Hnd. apply Hnd.
      apply in_or_app. now left.
Qed.

Lemma filed_facts (lines : list str) :
  NoDup (keys (filed this lines))
  /\ keys (filed this lines) = first_occurrences [] (map fst (entries this lines))
  /\ (forall f, diagnostics_for f (filed this lines)
                = map snd (filter (fun e => str_eqb (fst e) f)
                                  (entries this lines)))
  /\ count (filed this lines) = length (entries this lines).
Proof.
  exact (@file_all_under (entries this lines) [] (NoDup_nil _)).
Qed.

(** A callback that ran to its end has published the object it built. *)
Lemma on_exec_None (r : ExecResult) (w w' : World) :
  on_exec this r w = (w', None) ->
  first_throw this (split_lines (stderr r)) = None
  /\ diagnosticCollection w' = publish (filed this (split_lines (stderr r))) []
  /\ logger w'
     = log match exec_error r with
           | Some e => log (logger w) (error_message e) (Some error)
           | None => logger w
           end
           (length_property (filed this (split_lines (stderr r)))
              ++ lit " errors/warnings returned")
           None.
Proof.
  intros H. pose proof (on_exec_ends this r w) as Hend.
  rewrite H in Hend. cbn [snd] in Hend. symmetry in Hend.
  rewrite (on_exec_completed _ _ _ Hend) in H. injection H as <-.
  split; [assumption|]. split; reflexivity.
Qed.


Lemma line_entry_search (line : str) :
  match line_entry this line with Some _ => true | None => false end
  = negb (search line re =? -1).
Proof.
  unfold line_entry, search. destruct (exec re line) as [m|] eqn:E.
  - destruct (exec_re_groups _ E) as [Hi _].
    destruct (Z.eqb_spec (index m) (-1)); [lia | reflexivity].
  - reflexivity.
Qed.

(** Where no line throws, every line the search finds the pattern in has a
    diagnostic. *)
Lemma length_entries (lines : list str) :
  first_throw this lines = None ->
  length (entries this lines)
  = length (filter (fun line => negb (search line re =? -1)) lines).
Proof.
  induction lines as [|line lines IH]; [reflexivity|].
  unfold entries in *. cbn [flat_map filter first_throw].
  rewrite length_app, <- line_entry_search.
  destruct (line_entry this line) as [[e|e]|]; [| discriminate |];
    intros H; rewrite (IH H); reflexivity.
Qed.

(** An entry is what the body of the callback made of a line. *)
Lemma entries_origin (lines : list str) (e : str * Diagnostic) :
  In e (entries this lines) ->
  exists line m,
    In line lines /\ exec re line = Some m
    /\ entry_of this (array m) = Ok e.
Proof.
  unfold entries. intros H. apply in_flat_map in H as (line & Hline & H).
  unfold line_entry in H. destruct (exec re line) as [m|] eqn:E; [|destruct H].
  destruct (entry_of this (array m)) as [e'|x] eqn:Ee; [|destruct H].
  destruct H as [<-|[]]. now exists line, m.
Qed.


(** A diagnostic of the collection is the diagnostic of a line of stderr,
    under the resource of the line's file. *)
Lemma collection_origin (r : ExecResult) (w w' : World)
      (uri : Uri) (ds : list Diagnostic) (d : Diagnostic) :
  on_exec this r w = (w', None) ->
  In (uri, ds) (diagnosticCollection w') ->
  In d ds ->
  exists f, uri = Uri_file f /\ In (f, d) (entries this (split_lines (stderr r))).
Proof.
  intros H Hin Hd. apply on_exec_None in H as (_ & Hdc & _).
  rewrite Hdc in Hin.
  apply publish_members in Hin as [[]|(f & -> & Hin)].
  exists f. split; [reflexivity|].
  assert (Hfor : In d (diagnostics_for f (filed this (split_lines (stderr r))))).
  { unfold diagnostics_for. apply in_flat_map. exists (f, ds).
    split; [assumption|]. cbn [fst snd]. now rewrite str_eqb_refl. }
  destruct (filed_facts (split_lines (stderr r))) as (_ & _ & Hall & _).
  rewrite Hall in Hfor.
  apply in_map_iff in Hfor as ([g y] & Hy & He). cbn [snd] in Hy. subst y.
  apply filter_In in He as [He Hf]. cbn [fst] in Hf.
  apply str_eqb_eq in Hf. now subst g.
Qed.

End CollectionFacts.



(** After a callback that ran to its end, a resource holds the diagnostics
    of the lines that name one file, in the order of the lines: the file
    that is the last, in the order the files first come up in the output,
    to have that resource.  So a file whose resource no other file of the
    output shares has all its diagnostics there. *)
Theorem published_per_resource_in_output_order
        (host : Host) (this : VerilatorLinter.t)
        (r : ExecResult) (w w' : World) :
  on_exec this r w = (w', None) ->
  (forall uri,
      diagnostics_for uri (diagnosticCollection w')
      = match last_file_at
                uri
                (first_occurrences
                   [] (map fst (entries this (split_lines (stderr r)))))
        with
        | Some f =>
            map snd (filter (fun e => str_eqb (fst e) f)
                            (entries this (split_lines (stderr r))))
        | None => []
        end)
  /\ (forall f,
         In f (map fst (entries this (split_lines (stderr r)))) ->
         (forall g,
             In g (map fst (entries this (split_lines (stderr r)))) ->
             Uri_file g = Uri_file f -> g = f) ->
         diagnostics_for (Uri_file f) (diagnosticCollection w')
         = map snd (filter (fun e => str_eqb (fst e) f)
                           (entries this (split_lines (stderr r))))).
Proof.
  intros H. apply on_exec_None in H as (_ & Hdc & _). rewrite Hdc.
  destruct (filed_facts this (split_lines (stderr r)))
    as (Hnd & Hkeys & Hfor & _).
  assert (Hall : forall uri,
             diagnostics_for uri (publish (filed this (split_lines (stderr r))) [])
             = match last_file_at uri (keys (filed this (split_lines (stderr r))))
               with
               | Some f => diagnostics_for f (filed this (split_lines (stderr r)))
               | None => []
               end).
  { intros uri. rewrite diagnostics_for_publish by constructor.
    unfold last_file_at, keys. rewrite <- map_rev.
    generalize (NoDup_rev Hnd). unfold keys. rewrite <- map_rev.
    generalize (fun e => proj2 (in_rev (filed this (split_lines (stderr r))) e)).
    generalize (rev (filed this (split_lines (stderr r)))) as l.
    intros l Hl Hn.
    assert (Hsame : forall e,
               In e l ->
               diagnostics_for (fst e) (filed this (split_lines (stderr r)))
               = snd e).
    { intros [g ys] He. specialize (Hl _ He). cbn [fst snd].
      clear Hn He l. revert Hnd Hl.
      generalize (filed this (split_lines (stderr r))) as d.
      induction d as [|[k zs] d IH]; intros Hnd; [intros []|].
      cbn [keys map fst] in Hnd. inversion Hnd as [|? ? Hk Hnd']; subst.
      unfold diagnostics_for. cbn [flat_map fst snd].
      fold (diagnostics_for g d).
      intros [E|He].
      - injection E as -> ->. rewrite str_eqb_refl.
        now rewrite (@diagnostics_for_absent g d Hk), app_nil_r.
      - destruct (str_eqb k g) eqn:X.
        + apply str_eqb_eq in X. exfalso. apply Hk. rewrite X.
          change g with (fst (g, ys)). now apply in_map.
        + now apply IH. }
    induction l as [|[g ys] l IH]; cbn [map find fst]; [reflexivity|].
    destruct (str_eqb (Uri_file g) uri).
    - symmetry. apply (Hsame (g, ys)). now left.
    - apply IH.
      + intros e He. apply Hl. now right.
      + cbn [map fst] in Hn. now inversion Hn.
      + intros e He. apply Hsame. now right. }
  assert (Hfirst : forall uri,
             diagnostics_for uri (publish (filed this (split_lines (stderr r))) [])
             = match last_file_at
                       uri
                       (first_occurrences
                          [] (map fst (entries this (split_lines (stderr r)))))
               with
               | Some f =>
                   map snd (filter (fun e => str_eqb (fst e) f)
                                   (entries this (split_lines (stderr r))))
               | None => []
               end).
  { intros uri. rewrite Hall, Hkeys.
    destruct (last_file_at _ _); [apply Hfor | reflexivity]. }
  split; [exact Hfirst|].
  intros f Hf Hinj. rewrite Hfirst. unfold last_file_at.
  destruct (find (fun f0 => str_eqb (Uri_file f0) (Uri_file f))
                 (rev (first_occurrences
                         [] (map fst (entries this (split_lines (stderr r)))))))
    as [g|] eqn:F.
  - apply find_some in F as [Hg Eg]. apply str_eqb_eq in Eg.
    apply in_rev in Hg. apply first_occurrences_incl in Hg.
    now rewrite (Hinj g Hg Eg).
  - exfalso.
    assert (Hocc : In f (first_occurrences
                           [] (map fst (entries this (split_lines (stderr r)))))).
    { rewrite <- Hkeys. clear F Hinj Hfirst Hall.
      destruct (in_dec (list_eq_dec Ascii.ascii_dec) f
                       (keys (filed this (split_lines (stderr r)))))
        as [Hin|Hout]; [assumption|].
      exfalso. apply in_map_iff in Hf as ([f' x] & <- & He).
      pose proof (Hfor f') as Hff.
      rewrite (@diagnostics_for_absent f' _ Hout) in Hff.
      assert (Hx : In x (map snd (filter (fun e => str_eqb (fst e) f')
                                         (entries this (split_lines (stderr r)))))).
      { apply in_map_iff. exists (f', x). split; [reflexivity|].
        apply filter_In. split; [assumption|]. apply str_eqb_refl. }
      rewrite <- Hff in Hx. destruct Hx. }
    apply in_rev in Hocc.
    pose proof (find_none _ _ F f Hocc) as N. cbn beta in N.
    now rewrite str_eqb_refl in N.
Qed.

Lemma published_per_resource_in_output_order_witness :
  diagnostics_for
    (lit "file:///a.v")
    (diagnosticCollection
       (fst (@on_exec example_host (example_linter true)
                      {| exec_error := None; stdout := [];
                         stderr := lit "%Error: a.v:1: x" ++ [LF]
                                       ++ lit "%Error: /a.v:2: y" |}
                      stale_world)))
  = [ {| severity := Error;
         range := {| startLine := Fin 1; startCharacter := Fin 0;
                     endLine := Fin 1; endCharacter := MAX_VALUE |};
         message := lit "y";
         code := lit "verilator";
         source := lit "verilator" |} ].
Proof.
  edestruct (@published_per_resource_in_output_order
               example_host (example_linter true)
               {| exec_error := None; stdout := [];
                  stderr := lit "%Error: a.v:1: x" ++ [LF]
                                ++ lit "%Error: /a.v:2: y" |}
               stale_world) as [Hfor _].
  - vm_compute. reflexivity.
  - etransitivity; [|etransitivity; [apply (Hfor (lit "file:///a.v"))|]];
      vm_compute; reflexivity.
Defined.

(** After a callback that ran to its end, the collection holds no more
    diagnostics than stderr has lines in which the search finds the
    pattern; and as many, when no two files of the output share a
    resource. *)
Theorem diagnostics_published_and_lines_matched
        (host : Host) (this : VerilatorLinter.t)
        (r : ExecResult) (w w' : World) :
  on_exec this r w = (w', None) ->
  (count (diagnosticCollection w')
   <= length (filter (fun line => negb (search line re =? -1)%Z)
                     (split_lines (stderr r))))%nat
  /\ ((forall f g,
          In f (map fst (entries this (split_lines (stderr r)))) ->
          In g (map fst (entries this (split_lines (stderr r)))) ->
          Uri_file f = Uri_file g -> f = g) ->
      count (diagnosticCollection w')
      = length (filter (fun line => negb (search line re =? -1))
                       (split_lines (stderr r)))).
Proof.
  intros H. apply on_exec_None in H as (Hend & Hdc & _). rewrite Hdc.
  destruct (filed_facts this (split_lines (stderr r)))
    as (Hnd & Hkeys & _ & Hcount).
  rewrite <- (length_entries this _ Hend), <- Hcount. split.
  - pose proof (count_publish (filed this (split_lines (stderr r))) []) as Hle.
    exact Hle.
  - intros Hinj. rewrite publish_distinct.
    + cbn [app]. unfold count. rewrite map_map. reflexivity.
    + cbn [map app]. apply NoDup_map_NoDup_ForallPairs; [|assumption].
      intros f g Hf Hg. rewrite Hkeys in Hf, Hg.
      apply first_occurrences_incl in Hf, Hg. now apply Hinj.
Qed.

Lemma diagnostics_published_and_lines_matched_witness :
  (count (diagnosticCollection
            (fst (@on_exec example_host (example_linter true)
                           {| exec_error := None; stdout := [];
                              stderr := lit "%Error: a.v:1: x" ++ [LF]
                                            ++ lit "%Error: /a.v:2: y" |}
                           stale_world)))
   <= 2)%nat.
Proof.
  edestruct (@diagnostics_published_and_lines_matched
               example_host (example_linter true)
               {| exec_error := None; stdout := [];
                  stderr := lit "%Error: a.v:1: x" ++ [LF]
                                ++ lit "%Error: /a.v:2: y" |}
               stale_world) as [Hle _].
  - vm_compute. reflexivity.
  - vm_compute in Hle. vm_compute. exact Hle.
Defined.



(** Every diagnostic published by a callback that ran to its end lies on
    one line, from 0 on, starts at a column from 0 on and ends at
    [Number.MAX_VALUE] or beyond, at [Number.MAX_VALUE] when it starts
    before it; it has [verilator] as its source, a message that is not
    empty and holds no line feed, a severity other than [Hint], and a code
    that is either [verilator] or a non-empty string of capitals, digits and
    underscores. *)
Theorem published_diagnostics_are_well_formed
        (host : Host) (this : VerilatorLinter.t)
        (r : ExecResult) (w w' : World)
        (uri : Uri) (ds : list Diagnostic) (d : Diagnostic) :
  on_exec this r w = (w', None) ->
  In (uri, ds) (diagnosticCollection w') ->
  In d ds ->
  endLine (range d) = startLine (range d)
  /\ at_least 0 (startLine (range d))
  /\ at_least 0 (startCharacter (range d))
  /\ lt (endCharacter (range d)) MAX_VALUE = false
  /\ (lt (startCharacter (range d)) MAX_VALUE = true ->
      endCharacter (range d) = MAX_VALUE)
  /\ source d = lit "verilator"
  /\ message d <> []
  /\ ~ In LF (message d)
  /\ severity d <> Hint
  /\ code d <> []
  /\ (code d = lit "verilator"
      \/ all (OneOf [("A", "Z"); ("0", "9"); ("_", "_")]%char) (code d)).
Proof.
  intros H Hin Hd.
  destruct (@collection_origin host this r w w' uri ds d H Hin Hd)
    as (f & _ & He).
  apply entries_origin in He as (line & m & Hline & E & He).
  destruct (exec_re_groups _ E) as [_ Ha].
  destruct (entry_of_Ok this Ha He) as (_ & Hr & Hd').
  cbn [snd] in Hr, Hd'.
  destruct (range_of_Ok Ha Hr) as (Hrg & Hl0 & Hc0 & _ & _).
  assert (Hlf : ~ In LF line).
  { pose proof (@split_lines_acc_no_line_feed (stderr r) [] (fun H => H))
      as Hall.
    rewrite Forall_forall in Hall. now apply Hall. }
  rewrite Hrg. cbn [range_at endLine startLine startCharacter endCharacter].
  split; [reflexivity|]. split; [assumption|].
  split; [|split; [|split]].
  - destruct (lt (column_of (get (array m) 5)) MAX_VALUE); [assumption|].
    vm_compute. discriminate.
  - destruct (lt (column_of (get (array m) 5)) MAX_VALUE) eqn:X;
      [apply lt_irrefl | exact X].
  - destruct (lt (column_of (get (array m) 5)) MAX_VALUE) eqn:X;
      [reflexivity|].
    rewrite lt_irrefl. discriminate.
  - rewrite Hd'. clear Hd' Hrg Hr He.
    apply exec_re_parts in E as (before & whole & after & -> & Hp).
    destruct Hp as [keyword tag sp1 stem ext number column sp2 sp3 text
                      _ _ Htag _ _ _ _ _ _ _ _ Htext _ Ewhole].
    unfold diagnostic_of. cbn [get nth the source message severity code].
    split; [reflexivity|].
    split; [|split; [|split; [|split]]].
    + intros E. apply app_eq_nil in E as [_ E]. contradiction.
    + intros H'. apply Hlf. apply in_or_app. right. apply in_or_app. left.
      rewrite Ewhole. right. apply in_or_app. right. apply in_or_app. right.
      right. apply in_or_app. right. apply in_or_app. right. right.
      apply in_or_app. right. right. apply in_or_app. right.
      apply in_or_app. right. exact H'.
    + unfold getSeverity.
      destruct (startsWith keyword (lit "Error")); [discriminate|].
      destruct (startsWith keyword (lit "Warning")); discriminate.
    + destruct tag as [t|]; cbn [option_map code_of slice1 skipn];
        [|discriminate].
      now destruct (Htag t eq_refl).
    + destruct tag as [t|]; cbn [option_map code_of slice1 skipn];
        [|now left].
      right. now destruct (Htag t eq_refl).
Qed.

Lemma published_diagnostics_are_well_formed_witness :
  code {| severity := Warning;
          range := {| startLine := Fin 4; startCharacter := Fin 2;
                      endLine := Fin 4; endCharacter := MAX_VALUE |};
          message := lit "bit width mismatch";
          code := lit "WIDTH";
          source := lit "verilator" |} <> [].
Proof.
  refine (proj1 (proj2 (proj2 (proj2 (proj2 (proj2 (proj2 (proj2 (proj2
    (proj2
    (@published_diagnostics_are_well_formed
       example_host (example_linter false)
       {| exec_error := None; stdout := [];
          stderr := lit "%Warning-WIDTH: foo.sv:5:3: bit width mismatch" |}
       {| diagnosticCollection := []; logger := [] |} _
       (lit "file:///proj/foo.sv") [_] _ _ _
       (or_introl eq_refl)))))))))))).
  - vm_compute. reflexivity.
  - vm_compute. left. reflexivity.
Defined.

(* ===================================================================== *)
(** * The document's folder and the working directory *)
(* ===================================================================== *)

Lemma lastIndexOf_from_absent (s : str) (c : ascii) :
  ~ In c s -> forall i last, lastIndexOf_from i last s c = last.
Proof.
  induction s as [|x s IH]; intros H i last; cbn [lastIndexOf_from];
    [reflexivity|].
  destruct (Ascii.eqb x c) eqn:E.
  - apply Ascii.eqb_eq in E. subst x. exfalso. apply H. now left.
  - apply IH. intros Hin. apply H. now right.
Qed.

Lemma lastIndexOf_from_last (a b : str) (c : ascii) :
  ~ In c b ->
  forall i last,
    lastIndexOf_from i last (a ++ c :: b) c = i + Z.of_nat (length a).
Proof.
  intros Hb. induction a as [|x a IH]; intros i last;
    cbn [app lastIndexOf_from length].
  - rewrite Ascii.eqb_refl, (@lastIndexOf_from_absent b c Hb). simpl. lia.
  - rewrite IH. lia.
Qed.

(** The folder [lint] cuts off a path: what stands before the last
    separator, and nothing when there is no separator. *)
Lemma folder_of_path (c : ascii) (folder base : str) :
  ~ In c base ->
  substr (folder ++ c :: base) 0 (lastIndexOf (folder ++ c :: base) c)
  = folder.
Proof.
  intros Hb. unfold lastIndexOf. rewrite (@lastIndexOf_from_last folder base c Hb).
  unfold substr. cbn [Z.ltb Z.compare].
  rewrite length_app. cbn [length Z.add].
  replace (Z.min 0 (Z.of_nat (length folder + S (length base)))) with 0 by lia.
  cbn [Z.to_nat skipn].
  replace (Z.to_nat _) with (length folder) by lia.
  rewrite firstn_app, Nat.sub_diag, firstn_all. cbn [firstn].
  apply app_nil_r.
Qed.

Lemma folder_of_bare_name (c : ascii) (name : str) :
  ~ In c name -> substr name 0 (lastIndexOf name c) = [].
Proof.
  intros H. unfold lastIndexOf. rewrite (@lastIndexOf_from_absent name c H).
  unfold substr. cbn [Z.ltb Z.compare].
  replace (Z.to_nat _) with 0%nat by lia. reflexivity.
Qed.

Lemma backslash_to_slash_clean (s : str) : ~ In "\"%char (backslash_to_slash s).
Proof.
  unfold backslash_to_slash. intros H. apply in_map_iff in H as (c & E & _).
  destruct (Ascii.eqb c "\"%char) eqn:X; [discriminate E|].
  subst c. discriminate X.
Qed.

Lemma backslash_to_slash_plain (s : str) :
  ~ In "\"%char s -> backslash_to_slash s = s.
Proof.
  unfold backslash_to_slash. induction s as [|c s IH]; intros H;
    cbn [map]; [reflexivity|].
  destruct (Ascii.eqb c "\"%char) eqn:X.
  - apply Ascii.eqb_eq in X. subst c. exfalso. apply H. now left.
  - rewrite IH; [reflexivity|]. intros Hin. apply H. now right.
Qed.

Lemma strip_newlines_line (p : str) :
  ~ In LF p -> ~ In CR p ->
  strip_newlines (p ++ [LF]) = p /\ strip_newlines (p ++ [CR; LF]) = p.
Proof.
  intros Hlf Hcr. unfold strip_newlines, split_lines.
  rewrite !(@split_lines_acc_plain p _ Hlf Hcr). cbn.
  now rewrite app_nil_r.
Qed.

Section PrepareFacts.

Context {host : Host}.
Variable this : VerilatorLinter.t.

(** [lint] up to the child process, branch by branch. *)
Lemma prepare_cases (doc : TextDocument) (l : Logger.t) :
  let requested := log l (lit "verilator lint requested") None in
  let docFolder := substr (fsPath doc) 0 (lastIndexOf (fsPath doc) separator) in
  let runLocation :=
    if runAtFileLocation this then Some docFolder else rootPath in
  let launch verilator folder uri l :=
    (log l (command_of this doc verilator folder uri) (Some Logger.command),
     Some {| invocation_command := command_of this doc verilator folder uri;
             invocation_cwd := runLocation |}) in
  prepare this doc l
  = if isWindows then
      if useWSL this then
        match execSync (docUriCmd doc) with
        | None => (requested, None)
        | Some text =>
            let l1 := log requested
                          (lit "Rewrote docUri to " ++ strip_newlines text
                               ++ lit " for WSL") (Some info) in
            match execSync (docFolderCmd doc) with
            | None => (l1, None)
            | Some text' =>
                launch (lit "wsl verilator") (strip_newlines text')
                       (strip_newlines text)
                       (log l1
                            (lit "Rewrote docFolder to "
                                 ++ strip_newlines text' ++ lit " for WSL")
                            (Some info))
            end
        end
      else launch (lit "verilator_bin.exe") (backslash_to_slash docFolder)
                  (backslash_to_slash (fsPath doc)) requested
    else launch (lit "verilator") docFolder (fsPath doc) requested.
Proof.
  unfold prepare, separator, docUriCmd, docFolderCmd.
  destruct isWindows; reflexivity.
Qed.

End PrepareFacts.

(** [lint] gives up before the child process exactly when, on Windows with
    WSL, the path-translation helper fails on the document's path or on its
    folder; the diagnostic collection is then left as it was. *)
Theorem lint_gives_up_when_the_helper_fails
        (host : Host) (this : VerilatorLinter.t)
        (doc : TextDocument) (w : World) :
  (snd (prepare this doc (logger w)) = None
   <-> isWindows = true /\ useWSL this = true
       /\ (execSync (docUriCmd doc) = None
           \/ execSync (docFolderCmd doc) = None))
  /\ (snd (prepare this doc (logger w)) = None ->
      forall child_exec,
        diagnosticCollection (lint this child_exec doc w)
        = diagnosticCollection w).
Proof.
  split.
  - rewrite prepare_cases. cbv zeta.
    destruct isWindows; [destruct (useWSL this)|].
    + destruct (execSync (docUriCmd doc)) as [text|];
        [destruct (execSync (docFolderCmd doc)) as [text'|]|];
        cbn [snd]; split; intros H; auto; try discriminate H.
      destruct H as (_ & _ & [H|H]); discriminate H.
    + cbn [snd]. split; [discriminate|]. intros (_ & H & _). discriminate H.
    + cbn [snd]. split; [discriminate|]. intros (H & _). discriminate H.
  - intros H child_exec. unfold lint.
    destruct (prepare this doc (logger w)) as [l [inv|]];
      [discriminate H | reflexivity].
Qed.

Lemma lint_gives_up_when_the_helper_fails_witness :
  diagnosticCollection
    (@lint (example_windows_host failing_wslpath)
           {| verilatorPath := lit ""; verilatorArgs := lit "";
              runAtFileLocation := true; useWSL := true |}
           (fun _ _ => {| exec_error := None; stdout := [];
                          stderr := lit "%Error: a.v:1: x" |})
           {| fsPath := lit "C:\proj\top.sv";
              languageId := lit "systemverilog" |}
           stale_world)
  = diagnosticCollection stale_world.
Proof.
  apply (proj2 (@lint_gives_up_when_the_helper_fails
                  (example_windows_host failing_wslpath)
                  {| verilatorPath := lit ""; verilatorArgs := lit "";
                     runAtFileLocation := true; useWSL := true |}
                  {| fsPath := lit "C:\proj\top.sv";
                     languageId := lit "systemverilog" |}
                  stale_world)).
  reflexivity.
Defined.

(** The working directory is the document's folder as the path has it,
    that is the path up to its last separator, when the linter runs at the
    file's location, and the workspace root otherwise (none, with no folder
    open); a path without a separator has the empty folder.  Off Windows that folder is also the one
    the include flag names. *)
Theorem working_directory_is_the_folder
        (host : Host) (this : VerilatorLinter.t)
        (doc : TextDocument) (l l' : Logger.t) (inv : LintInvocation) :
  prepare this doc l = (l', Some inv) ->
  (forall folder base,
      fsPath doc = folder ++ separator :: base -> ~ In separator base ->
      invocation_cwd inv
      = (if runAtFileLocation this then Some folder else rootPath)
      /\ (isWindows = false ->
          invocation_command inv
          = command_of this doc (lit "verilator") folder (fsPath doc)))
  /\ (~ In separator (fsPath doc) ->
      invocation_cwd inv = if runAtFileLocation this then Some [] else rootPath).
Proof.
  rewrite prepare_cases. cbv zeta. intros H.
  assert (Hcwd : invocation_cwd inv
                 = (if runAtFileLocation this
                    then Some (substr (fsPath doc) 0
                                      (lastIndexOf (fsPath doc) separator))
                    else rootPath)
                 /\ (isWindows = false ->
                     invocation_command inv
                     = command_of this doc (lit "verilator")
                         (substr (fsPath doc) 0
                                 (lastIndexOf (fsPath doc) separator))
                         (fsPath doc))).
  { destruct isWindows; [destruct (useWSL this)|].
    - destruct (execSync (docUriCmd doc)) as [text|]; [|discriminate H].
      destruct (execSync (docFolderCmd doc)) as [text'|]; [|discriminate H].
      injection H as _ <-. split; [reflexivity | discriminate].
    - injection H as _ <-. split; [reflexivity | discriminate].
    - injection H as _ <-. split; reflexivity. }
  destruct Hcwd as [Hcwd Hcmd]. split.
  - intros folder base E Hbase. rewrite Hcwd. rewrite E.
    rewrite (@folder_of_path separator folder base Hbase). split; [reflexivity|].
    intros Hposix. rewrite (Hcmd Hposix). rewrite E.
    now rewrite (@folder_of_path separator folder base Hbase).
  - intros Hbare. rewrite Hcwd.
    now rewrite (@folder_of_bare_name separator (fsPath doc) Hbare).
Qed.

Lemma working_directory_is_the_folder_witness :
  exists inv,
    snd (@prepare example_host (example_linter true)
                  {| fsPath := lit "/proj/rtl/top.sv";
                     languageId := lit "systemverilog" |} [])
    = Some inv
    /\ invocation_cwd inv = Some (lit "/proj/rtl").
Proof.
  destruct (@prepare example_host (example_linter true)
                     {| fsPath := lit "/proj/rtl/top.sv";
                        languageId := lit "systemverilog" |} [])
    as [l' [inv|]] eqn:E; [|vm_compute in E; discriminate E].
  exists inv. split; [reflexivity|].
  apply (proj1 (@working_directory_is_the_folder
                  example_host (example_linter true) _ _ _ _ E)
               (lit "/proj/rtl") (lit "top.sv")).
  - reflexivity.
  - cbv. intuition discriminate.
Defined.

(** On Windows without WSL the tool is given forward slashes: for a
    document [folder\base], the include flag names the folder and the
    target is that folder, a slash and the base, neither with a backslash
    left; the working directory keeps the path as the editor has it. *)
Theorem windows_paths_reach_the_tool_with_slashes
        (host : Host) (this : VerilatorLinter.t)
        (doc : TextDocument) (l : Logger.t) (folder base : str) :
  isWindows = true -> useWSL this = false ->
  fsPath doc = folder ++ "\"%char :: base -> ~ In "\"%char base ->
  let folder' := backslash_to_slash folder in
  ~ In "\"%char folder'
  /\ length folder' = length folder
  /\ (~ In "\"%char folder -> folder' = folder)
  /\ snd (prepare this doc l)
     = Some {| invocation_command :=
                 command_of this doc (lit "verilator_bin.exe") folder'
                            (folder' ++ "/"%char :: base);
               invocation_cwd :=
                 if runAtFileLocation this then Some folder else rootPath |}.
Proof.
  intros Hwin Hwsl E Hbase. cbv zeta.
  split; [apply backslash_to_slash_clean|].
  split; [apply length_map|].
  split; [apply backslash_to_slash_plain|].
  rewrite prepare_cases. cbv zeta. unfold separator.
  rewrite Hwin, Hwsl. cbn [snd]. rewrite E.
  rewrite (@folder_of_path "\"%char folder base Hbase).
  unfold backslash_to_slash at 2. rewrite map_app. cbn [map].
  rewrite Ascii.eqb_refl.
  fold (backslash_to_slash folder). fold (backslash_to_slash base).
  now rewrite (@backslash_to_slash_plain base Hbase).
Qed.

Lemma windows_paths_reach_the_tool_with_slashes_witness :
  snd (@prepare (example_windows_host failing_wslpath)
                {| verilatorPath := lit "C:\tools"; verilatorArgs := lit "-Wall";
                   runAtFileLocation := true; useWSL := false |}
                {| fsPath := lit "C:\proj\top.sv";
                   languageId := lit "systemverilog" |} [])
  = Some {| invocation_command :=
              lit "C:\tools\verilator_bin.exe -sv --lint-only -IC:/proj -Wall C:/proj/top.sv";
            invocation_cwd := Some (lit "C:\proj") |}.
Proof.
  refine (eq_trans
            (proj2 (proj2 (proj2
               (@windows_paths_reach_the_tool_with_slashes
                  (example_windows_host failing_wslpath)
                  {| verilatorPath := lit "C:\tools";
                     verilatorArgs := lit "-Wall";
                     runAtFileLocation := true; useWSL := false |}
                  {| fsPath := lit "C:\proj\top.sv";
                     languageId := lit "systemverilog" |} []
                  (lit "C:\proj") (lit "top.sv")
                  eq_refl eq_refl eq_refl _)))) _).
  - cbv. intuition discriminate.
  - vm_compute. reflexivity.
Defined.

(** On Windows with WSL, when the helper answers each of the two paths
    with its translation and a line feed, the translations, without the
    line feed, are what the tool is given; both rewrites are logged before
    the command; and the working directory is still the Windows one. *)
Theorem wsl_paths_reach_the_tool_translated
        (host : Host) (this : VerilatorLinter.t)
        (doc : TextDocument) (l : Logger.t) (uri folder : str) :
  isWindows = true -> useWSL this = true ->
  ~ In LF uri -> ~ In CR uri -> ~ In LF folder -> ~ In CR folder ->
  execSync (docUriCmd doc) = Some (uri ++ [LF]) ->
  execSync (docFolderCmd doc) = Some (folder ++ [LF]) ->
  let command := command_of this doc (lit "wsl verilator") folder uri in
  prepare this doc l
  = (l ++ [ (lit "verilator lint requested", None);
            (lit "Rewrote docUri to " ++ uri ++ lit " for WSL", Some info);
            (lit "Rewrote docFolder to " ++ folder ++ lit " for WSL",
             Some info);
            (command, Some Logger.command) ],
     Some {| invocation_command := command;
             invocation_cwd :=
               if runAtFileLocation this
               then Some (substr (fsPath doc) 0
                                 (lastIndexOf (fsPath doc) "\"%char))
               else rootPath |}).
Proof.
  intros Hwin Hwsl Hu1 Hu2 Hf1 Hf2 Euri Efolder. cbv zeta.
  rewrite prepare_cases. cbv zeta. unfold separator.
  rewrite Hwin, Hwsl, Euri, Efolder.
  rewrite (proj1 (@strip_newlines_line uri Hu1 Hu2)).
  rewrite (proj1 (@strip_newlines_line folder Hf1 Hf2)).
  unfold log. now rewrite <- !app_assoc.
Qed.

Lemma wsl_paths_reach_the_tool_translated_witness :
  snd (@prepare (example_windows_host example_wslpath)
                {| verilatorPath := lit ""; verilatorArgs := lit "-Wall";
                   runAtFileLocation := true; useWSL := true |}
                {| fsPath := lit "C:\proj\top.sv";
                   languageId := lit "systemverilog" |} [])
  = Some {| invocation_command :=
              lit "wsl verilator -sv --lint-only -I/mnt/c/proj -Wall /mnt/c/proj/top.sv";
            invocation_cwd := Some (lit "C:\proj") |}.
Proof.
  rewrite (@wsl_paths_reach_the_tool_translated
             (example_windows_host example_wslpath)
             {| verilatorPath := lit ""; verilatorArgs := lit "-Wall";
                runAtFileLocation := true; useWSL := true |}
             {| fsPath := lit "C:\proj\top.sv";
                languageId := lit "systemverilog" |} []
             (lit "/mnt/c/proj/top.sv") (lit "/mnt/c/proj")
             eq_refl eq_refl).
  - vm_compute. reflexivity.
  - cbv. intuition discriminate.
  - cbv. intuition discriminate.
  - cbv. intuition discriminate.
  - cbv. intuition discriminate.
  - vm_compute. reflexivity.
  - vm_compute. reflexivity.
Defined.
